(** * zuno-parser-service: the statement extraction engine of [parser_logic.py]

    A shallow embedding of the amount normalizer ([_clean_amount]), the table
    classifier ([_is_transaction_table]), the row normalizer
    ([_parse_transaction_row]) and the page loop and credit-limit rule of
    [parse_statement], followed by the properties established about them.

    Character model.  A Python [str] is a sequence of code points; here a
    string is a [list ascii] and a character is one of the code points 0..255
    (Latin-1).  Whitespace ([str.strip], regex [\s]), decimal digits (regex
    [\d]) and [str.lower] are Python's own tables restricted to that range.
    [str.upper] is only ever compared with the ASCII literals "EMI" and "EM";
    the three Latin-1 characters whose uppercase form leaves the range (micro
    sign, sharp s, y with diaeresis) are left unchanged by [upper_char], which
    gives the same answer to every such comparison. *)

From Stdlib Require Import List Ascii String DecimalString ZArith NArith Bool Lia Arith
  Permutation.
Import ListNotations.

Local Open Scope Z_scope.
Local Open Scope list_scope.

(** ** Strings *)

Module Str.

Definition str := list ascii.

(** A string literal of the source. *)
Definition lit (s : string) : str := list_ascii_of_string s.

Definition code (c : ascii) : N := N_of_ascii c.

Definition between (lo hi : N) (c : ascii) : bool :=
  ((lo <=? code c) && (code c <=? hi))%N.

(** [str.isspace] and regex [\s] on code points below 256. *)
Definition isspace (c : ascii) : bool :=
  between 9 13 c || between 28 32 c || (code c =? 133)%N || (code c =? 160)%N.

(** Regex [\d] (and the class [0-9]) on code points below 256. *)
Definition isdigit (c : ascii) : bool := between 48 57 c.

Definition lower_char (c : ascii) : ascii :=
  if between 65 90 c || (between 192 222 c && negb (code c =? 215)%N)
  then ascii_of_N (code c + 32) else c.

Definition upper_char (c : ascii) : ascii :=
  if between 97 122 c || (between 224 254 c && negb (code c =? 247)%N)
  then ascii_of_N (code c - 32) else c.

(** [s.lower()] and [s.upper()]. *)
Definition lower (s : str) : str := map lower_char s.
Definition upper (s : str) : str := map upper_char s.

Fixpoint eqb (a b : str) : bool :=
  match a, b with
  | [], [] => true
  | x :: a', y :: b' => Ascii.eqb x y && eqb a' b'
  | _, _ => false
  end.

(** [s.lstrip()], [s.rstrip()] and [s.strip()]. *)
Fixpoint lstrip (s : str) : str :=
  match s with
  | c :: s' => if isspace c then lstrip s' else s
  | [] => []
  end.

Fixpoint rstrip (s : str) : str :=
  match s with
  | [] => []
  | c :: s' =>
      match rstrip s' with
      | [] => if isspace c then [] else [c]
      | r => c :: r
      end
  end.

Definition strip (s : str) : str := rstrip (lstrip s).

(** [s.replace(c, "")] for a one-character [c]. *)
Definition remove_char (c : ascii) (s : str) : str :=
  filter (fun x => negb (Ascii.eqb x c)) s.

(** [s.startswith(p)]. *)
Fixpoint startswith (p s : str) : bool :=
  match p, s with
  | [], _ => true
  | x :: p', y :: s' => Ascii.eqb x y && startswith p' s'
  | _ :: _, [] => false
  end.

(** [p in s]. *)
Fixpoint contains (p s : str) : bool :=
  startswith p s ||
  match s with
  | [] => false
  | _ :: s' => contains p s'
  end.

(** [s.split(c)[0]]: the text before the first [c]. *)
Fixpoint before_first (c : ascii) (s : str) : str :=
  match s with
  | [] => []
  | x :: s' => if Ascii.eqb x c then [] else x :: before_first c s'
  end.

(** [sep.join(parts)]. *)
Fixpoint join (sep : str) (parts : list str) : str :=
  match parts with
  | [] => []
  | [p] => p
  | p :: rest => p ++ sep ++ join sep rest
  end.

(** The length as Python's [len] gives it. *)
Definition len {A} (l : list A) : Z := Z.of_nat (List.length l).

End Str.
Import Str.

(** ** Exceptions *)

(** The exceptions that can travel through the modelled code. *)
Inductive exn : Type :=
| AttributeError      (* a method looked up on [None] *)
| DecimalOverflow     (* [decimal.Overflow], trapped by the default context *)
| ParsingError.       (* raised by [parse_statement] for any failure in its body *)

Inductive result (A : Type) : Type :=
| Return (a : A)
| Raise (e : exn).
Arguments Return {A} a.
Arguments Raise {A} e.

Definition bind {A B} (m : result A) (f : A -> result B) : result B :=
  match m with
  | Return a => f a
  | Raise e => Raise e
  end.

Notation "x <- m ;; k" := (bind m (fun x => k))
  (at level 61, m at next level, right associativity).

(** ** Decimal numbers *)

Module Dec.

(** A finite [decimal.Decimal]: sign flag, coefficient as its string of
    digits ([_int], without leading zeros, "0" for zero) and exponent. *)
Record Decimal : Type := mkDec {
  d_sign : bool;
  d_int : str;
  d_exp : Z
}.

(** The default context: [prec=28, rounding=ROUND_HALF_EVEN, Emin=-999999,
    Emax=999999, clamp=0], with [Overflow] among the trapped signals. *)
Definition prec : Z := 28.
Definition Emax : Z := 999999.
Definition Emin : Z := -999999.
Definition Etiny : Z := Emin - prec + 1.
Definition Etop : Z := Emax - prec + 1.

Definition zero_digit : ascii := "0"%char.

(** [str(int(s))] for a string of digits: leading zeros dropped. *)
Fixpoint strip_zeros (s : str) : str :=
  match s with
  | [] => [zero_digit]
  | c :: s' => if Ascii.eqb c zero_digit then strip_zeros s' else s
  end.

(** [Decimal(text)] for a text of digits and dots, the only texts
    [_clean_amount] passes to the constructor (the constructor's signs,
    exponents and special values need other characters).  [None] stands for
    [InvalidOperation]: no digit at all, or a second dot. *)
Definition of_str (text : str) : option Decimal :=
  let intpart := before_first "."%char text in
  let rest := skipn (List.length intpart) text in
  let fracpart := tl rest in
  if forallb isdigit intpart && forallb isdigit fracpart
     && negb (Str.eqb (intpart ++ fracpart) [])
  then Some (mkDec false (strip_zeros (intpart ++ fracpart)) (- len fracpart))
  else None.

(** [not self]: the number is zero. *)
Definition is_zero (d : Decimal) : bool := Str.eqb (d_int d) [zero_digit].

(** [str(int(coeff) + 1)]. *)
Fixpoint succ_rev (r : str) : str :=
  match r with
  | [] => ["1"%char]
  | c :: r' =>
      if Ascii.eqb c "9"%char then zero_digit :: succ_rev r'
      else ascii_of_N (code c + 1) :: r'
  end.

Definition succ_digits (s : str) : str := rev (succ_rev (rev (strip_zeros s))).

Definition all_zeros (s : str) : bool :=
  forallb (fun c => Ascii.eqb c zero_digit) s.

Definition in_chars (set : string) (c : ascii) : bool :=
  existsb (Ascii.eqb c) (lit set).

(** [_round_half_up] and [_round_half_even] of [_pydecimal]: the direction in
    which the coefficient [i] cut after [p] digits is to be adjusted. *)
Definition _round_half_up (i : str) (p : nat) : Z :=
  match nth_error i p with
  | Some c =>
      if in_chars "56789" c then 1
      else if all_zeros (skipn p i) then 0 else -1
  | None => if all_zeros (skipn p i) then 0 else -1
  end.

Definition exact_half (i : str) (p : nat) : bool :=
  match skipn p i with
  | c :: z => Ascii.eqb c "5"%char && all_zeros z
  | [] => false
  end.

Definition _round_half_even (i : str) (p : nat) : Z :=
  if exact_half i p &&
     (Nat.eqb p 0 ||
      match nth_error i (p - 1) with
      | Some c => in_chars "02468" c
      | None => false
      end)
  then -1
  else _round_half_up i p.

(** [Decimal._fix(context)]: round to the context's precision and exponent
    range.  The untrapped signals (Rounded, Inexact, Clamped, Subnormal,
    Underflow) only set flags; Overflow raises. *)
Definition _fix (d : Decimal) : result Decimal :=
  if is_zero d then
    let new_exp := Z.min (Z.max (d_exp d) Etiny) Emax in
    if new_exp =? d_exp d then Return d
    else Return (mkDec (d_sign d) [zero_digit] new_exp)
  else
    let exp_min := len (d_int d) + d_exp d - prec in
    if exp_min >? Etop then Raise DecimalOverflow
    else
      let self_is_subnormal := exp_min <? Etiny in
      let exp_min := if self_is_subnormal then Etiny else exp_min in
      if d_exp d <? exp_min then
        let digits := len (d_int d) + d_exp d - exp_min in
        let '(i, digits) :=
          if digits <? 0 then (["1"%char], 0) else (d_int d, digits) in
        let changed := _round_half_even i (Z.to_nat digits) in
        let coeff :=
          match firstn (Z.to_nat digits) i with
          | [] => [zero_digit]
          | c => c
          end in
        let '(coeff, exp_min) :=
          if changed >? 0 then
            let coeff := succ_digits coeff in
            if len coeff >? prec then (removelast coeff, exp_min + 1)
            else (coeff, exp_min)
          else (coeff, exp_min) in
        if exp_min >? Etop then Raise DecimalOverflow
        else Return (mkDec (d_sign d) coeff exp_min)
      else Return d.

Definition copy_abs (d : Decimal) : Decimal := mkDec false (d_int d) (d_exp d).
Definition copy_negate (d : Decimal) : Decimal :=
  mkDec (negb (d_sign d)) (d_int d) (d_exp d).

(** [-d]: the negation of zero is (positive) zero. *)
Definition neg (d : Decimal) : result Decimal :=
  _fix (if is_zero d then copy_abs d else copy_negate d).

(** [+d] and [abs(d)]. *)
Definition pos (d : Decimal) : result Decimal :=
  _fix (if is_zero d then copy_abs d else d).

Definition abs (d : Decimal) : result Decimal :=
  if d_sign d then neg d else pos d.

(** The value is below zero, above zero. *)
Definition is_negative (d : Decimal) : bool := d_sign d && negb (is_zero d).
Definition is_positive (d : Decimal) : bool := negb (d_sign d) && negb (is_zero d).

(** ["%+d" % z]. *)
Definition nat_digits (n : nat) : str :=
  lit (NilEmpty.string_of_uint (Nat.to_uint n)).

Definition format_signed (z : Z) : str :=
  (if z <? 0 then "-"%char else "+"%char) :: nat_digits (Z.abs_nat z).

(** [str(d)], capitals=1. *)
Definition to_str (d : Decimal) : str :=
  let sign := if d_sign d then ["-"%char] else [] in
  let leftdigits := d_exp d + len (d_int d) in
  let dotplace :=
    if (d_exp d <=? 0) && (leftdigits >? -6) then leftdigits else 1 in
  let '(intpart, fracpart) :=
    if dotplace <=? 0 then
      ([zero_digit], "."%char :: repeat zero_digit (Z.to_nat (- dotplace)) ++ d_int d)
    else if dotplace >=? len (d_int d) then
      (d_int d ++ repeat zero_digit (Z.to_nat (dotplace - len (d_int d))), [])
    else
      (firstn (Z.to_nat dotplace) (d_int d),
       "."%char :: skipn (Z.to_nat dotplace) (d_int d)) in
  let exp :=
    if leftdigits =? dotplace then []
    else "E"%char :: format_signed (leftdigits - dotplace) in
  sign ++ intpart ++ fracpart ++ exp.

End Dec.
Import Dec.

(** ** The amount normalizer *)

(** The credit test of [_clean_amount], on the text already stripped and
    freed of commas. *)
Definition is_credit_text (text : str) : bool :=
  contains (lit "cr") (lower text) || startswith (lit "+") text.

(** The class [0-9.] and [re.sub(r"[^0-9.]", "", text)]. *)
Definition numeric (c : ascii) : bool := isdigit c || Ascii.eqb c "."%char.

Definition keep_numeric (text : str) : str := filter numeric text.

(** [_clean_amount(text)]; an argument [None] is an absent table cell.  The
    [except] clause catches [InvalidOperation] and [ValueError], which is the
    [None] of [of_str]; an exception of the negation passes through. *)
Definition _clean_amount (text : option str) : result (option Decimal) :=
  match text with
  | None => Return None
  | Some [] => Return None
  | Some text =>
      let text := remove_char ","%char (strip text) in
      let is_credit := is_credit_text text in
      let cleaned_text := keep_numeric text in
      match cleaned_text with
      | [] => Return None
      | _ =>
          match of_str cleaned_text with
          | None => Return None
          | Some amount =>
              if is_credit then (a <- neg amount ;; Return (Some a))
              else Return (Some amount)
          end
      end
  end.

(** ** Regular expressions *)

(** The fragment of Python's [re] that the patterns of [parser_logic.py] use,
    matched the way [re] matches: leftmost, greedy, backtracking in priority
    order.  Repetition is over a one-character class, which is all the
    patterns repeat apart from the bounded [(?:.*\n){1,2}]. *)
Module Re.

Inductive regex : Type :=
| Eps
| Chr (p : ascii -> bool)       (* one character of a class *)
| Cat (r1 r2 : regex)
| Alt (r1 r2 : regex)           (* r1|r2 *)
| Star (p : ascii -> bool)      (* greedy p* *)
| Opt (r : regex)               (* greedy r? *)
| Group (r : regex)             (* the capturing group *)
| Bos                           (* ^ without MULTILINE *)
| Eos.                          (* $ without MULTILINE *)

(** Where a match attempt stands: whether no character has been consumed since
    the start of the string, the text still ahead, and the group captured. *)
Record mstate : Type := mkSt {
  at_start : bool;
  rest : str;
  group1 : option str
}.

Definition newline : ascii := ascii_of_N 10.

Section Matcher.
Context {A : Type}.

Fixpoint star (p : ascii -> bool) (b : bool) (s : str) (g : option str)
    (k : mstate -> option A) : option A :=
  match s with
  | c :: s' =>
      if p c then
        match star p false s' g k with
        | Some x => Some x
        | None => k (mkSt b s g)
        end
      else k (mkSt b s g)
  | [] => k (mkSt b [] g)
  end.

Fixpoint run (r : regex) (st : mstate) (k : mstate -> option A) : option A :=
  match r with
  | Eps => k st
  | Chr p =>
      match rest st with
      | c :: s' => if p c then k (mkSt false s' (group1 st)) else None
      | [] => None
      end
  | Cat r1 r2 => run r1 st (fun st' => run r2 st' k)
  | Alt r1 r2 =>
      match run r1 st k with
      | Some x => Some x
      | None => run r2 st k
      end
  | Star p => star p (at_start st) (rest st) (group1 st) k
  | Opt r' =>
      match run r' st k with
      | Some x => Some x
      | None => k st
      end
  | Group r' =>
      run r' st (fun st' =>
        k (mkSt (at_start st') (rest st')
             (Some (firstn (List.length (rest st) - List.length (rest st'))
                      (rest st)))))
  | Bos => if at_start st then k st else None
  | Eos =>
      match rest st with
      | [] => k st
      | [c] => if Ascii.eqb c newline then k st else None
      | _ => None
      end
  end.
End Matcher.

(** [pattern.match(s)]: a match at the start of [s]; the state at its end. *)
Definition match_ (r : regex) (s : str) : option mstate :=
  run r (mkSt true s None) Some.

(** The truth value of [pattern.match(s)]. *)
Definition matches (r : regex) (s : str) : bool :=
  match match_ r s with Some _ => true | None => false end.

(** [pattern.search(s)]: the first start position with a match. *)
Fixpoint search_from (r : regex) (b : bool) (s : str) : option mstate :=
  match run r (mkSt b s None) Some with
  | Some st => Some st
  | None =>
      match s with
      | [] => None
      | _ :: s' => search_from r false s'
      end
  end.

(** [m.group(1)] of [pattern.search(s)], when there is a match. *)
Definition search_group1 (r : regex) (s : str) : option str :=
  match search_from r true s with
  | Some st => Some (match group1 st with Some g => g | None => [] end)
  | None => None
  end.

(** Building blocks. *)
Definition chr (c : ascii) : regex := Chr (Ascii.eqb c).
Definition ichr (c : ascii) : regex := Chr (fun x => Ascii.eqb (lower_char x) c).
Definition cats (rs : list regex) : regex := fold_right Cat Eps rs.
Definition lits (s : string) : regex := cats (map chr (lit s)).
(** A literal under [re.IGNORECASE]; [s] is given in lower case. *)
Definition ilits (s : string) : regex := cats (map ichr (lit s)).
Definition plus (p : ascii -> bool) : regex := Cat (Chr p) (Star p).
Definition dot (c : ascii) : bool := negb (Ascii.eqb c newline).
Definition digit_or (x : ascii) (c : ascii) : bool := isdigit c || Ascii.eqb c x.
Definition one_of (set : string) (c : ascii) : bool := existsb (Ascii.eqb c) (lit set).

End Re.
Import Re.

(** ** The patterns of [parser_logic.py] *)

(** The capturing group of both limit patterns, [\d,]+ \.? \d* in sequence. *)
Definition amount_group : regex :=
  Group (cats [plus (digit_or ","%char); Opt (chr "."%char); Star isdigit]).

(** Pattern A, piece by piece:
    TOTAL CREDIT LIMIT \n , \s* \(Including Cash\) .* AVAILABLE CREDIT LIMIT .* \n ,
    \s* C? and the capturing group. *)
Definition TOTAL_LIMIT_RE_A : regex :=
  cats [lits "TOTAL CREDIT LIMIT"; chr newline;
        Star isspace; lits "(Including Cash)"; Star dot;
        lits "AVAILABLE CREDIT LIMIT"; Star dot; chr newline;
        Star isspace; Opt (chr "C"%char); amount_group].

(** Pattern B, piece by piece:
    TOTAL CREDIT LIMIT \n , one or two lines (.* \n), \s* and the capturing
    group. *)
Definition TOTAL_LIMIT_RE_B : regex :=
  let line := Cat (Star dot) (chr newline) in
  cats [lits "TOTAL CREDIT LIMIT"; chr newline;
        Cat line (Opt line);
        Star isspace; amount_group].

(** [^\d{2}/\d{2}/\d{4}] *)
Definition TX_DATE_RE : regex :=
  let d := Chr isdigit in
  let slash := chr "/"%char in
  cats [Bos; d; d; slash; d; d; slash; d; d; d; d].

(** [^[+-]\d+$] *)
Definition POINTS_DELTA_RE : regex :=
  cats [Bos; Chr (one_of "+-"); plus isdigit; Eos].

(** [^\d+\s+pts$], IGNORECASE *)
Definition POINTS_RE : regex :=
  cats [Bos; plus isdigit; plus isspace; ilits "pts"; Eos].

(** [^(USD|EUR|GBP)\s+[\d\.]+$], IGNORECASE *)
Definition FOREIGN_AMOUNT_RE : regex :=
  cats [Bos; Group (Alt (ilits "usd") (Alt (ilits "eur") (ilits "gbp")));
        plus isspace; plus (digit_or "."%char); Eos].

(** ** The table classifier *)

(** A table cell: [None] where the table extraction found no text. *)
Definition cell := option str.
Definition RawRow := list cell.

(** [filter(None, header)]: the cells that are neither [None] nor empty. *)
Fixpoint truthy_cells (header : RawRow) : list str :=
  match header with
  | [] => []
  | Some (c :: s) :: rest => (c :: s) :: truthy_cells rest
  | _ :: rest => truthy_cells rest
  end.

Definition _is_transaction_table (header : RawRow) : bool :=
  match header with
  | [] => false
  | _ =>
      let header_text := lower (join (lit " ") (truthy_cells header)) in
      contains (lit "date") header_text
      && contains (lit "transaction") header_text
      && contains (lit "amount") header_text
  end.

(** ** The row normalizer *)

(** A [Transaction].  The source stores [float(amount)]; the conversion is
    total on finite decimals and keeps the sign, and the record keeps the
    decimal it is taken from. *)
Record Transaction : Type := mkTx {
  date : str;
  merchant : str;
  amount : Decimal
}.

(** The junk test of the merchant loop, on the stripped cell. *)
Definition is_junk (part_stripped : str) : bool :=
  Str.eqb (upper part_stripped) (lit "EMI")
  || Str.eqb (upper part_stripped) (lit "EM")
  || matches POINTS_DELTA_RE part_stripped
  || matches POINTS_RE part_stripped
  || matches FOREIGN_AMOUNT_RE part_stripped.

(** The loop over [row[1:-1]] that builds [merchant_parts]. *)
Fixpoint merchant_parts (cells : list cell) : list str :=
  match cells with
  | [] => []
  | part :: cells' =>
      match part with
      | None | Some [] => merchant_parts cells'
      | Some p =>
          let part_stripped := strip p in
          if is_junk part_stripped then merchant_parts cells'
          else part_stripped :: merchant_parts cells'
      end
  end.

(** [row[1:-1]] *)
Definition middle (row : RawRow) : list cell := removelast (tl row).

(** The merchant string of a row. *)
Definition merchant_of (row : RawRow) : str :=
  strip (join (lit " ") (merchant_parts (middle row))).

Definition _parse_transaction_row (row : RawRow) : result (option Transaction) :=
  if len row <? 3 then Return None
  else
    match hd None row with
    | None => Raise AttributeError
    | Some first =>
        let date_str := strip (before_first "|"%char first) in
        if negb (matches TX_DATE_RE date_str) then Return None
        else
          amount <- _clean_amount (last row None) ;;
          match amount with
          | None => Return None
          | Some amount =>
              let merchant := merchant_of row in
              if Str.eqb merchant [] || startswith (lit "total") (lower merchant)
              then Return None
              else Return (Some (mkTx date_str merchant amount))
          end
    end.

(** ** The statement assembler *)

Definition RawTable := list RawRow.

(** What the document loader gives for a page: its layout text and tables. *)
Record RawPage : Type := mkPage {
  layoutText : str;
  tables : list RawTable
}.

(** The result; [card_name], [card_last_4_digits] and [name_on_card] come from
    three further searches of the first page that share nothing with these
    two fields and are left out. *)
Record StatementDetails : Type := mkDetails {
  available_limit : option Decimal;
  transactions : list Transaction
}.

(** [for row in table[1:]: tx = _parse_transaction_row(row); if tx: append] *)
Fixpoint parse_rows (rows : list RawRow) : result (list Transaction) :=
  match rows with
  | [] => Return []
  | row :: rows' =>
      tx <- _parse_transaction_row row ;;
      txs <- parse_rows rows' ;;
      Return (match tx with Some t => t :: txs | None => txs end)
  end.

Definition parse_table (table : RawTable) : result (list Transaction) :=
  match table with
  | [] => Return []
  | header :: rows =>
      if _is_transaction_table header then parse_rows rows else Return []
  end.

Fixpoint parse_tables (ts : list RawTable) : result (list Transaction) :=
  match ts with
  | [] => Return []
  | t :: ts' =>
      a <- parse_table t ;;
      b <- parse_tables ts' ;;
      Return (a ++ b)
  end.

(** The page loop; a page without text is skipped with its tables. *)
Fixpoint parse_pages (pages : list RawPage) : result (list Transaction) :=
  match pages with
  | [] => Return []
  | page :: pages' =>
      a <- (match layoutText page with
            | [] => Return []
            | _ => parse_tables (tables page)
            end) ;;
      b <- parse_pages pages' ;;
      Return (a ++ b)
  end.

Definition page_one_text (pages : list RawPage) : str :=
  match pages with
  | [] => []
  | page :: _ => layoutText page
  end.

(** The credit-limit rule, over the two layout searches in their order. *)
Definition limit_string (layout_a layout_b : str -> option str) (text : str)
    : option str :=
  match layout_a text with
  | Some s => Some s
  | None => layout_b text
  end.

(** [total_limit = float(abs(limit_decimal))]: the value here is the decimal
    [abs(limit_decimal)] that [float] is applied to.  The stored number is
    its nearest double: it is absent, raises and is non-negative exactly as
    this decimal is, but it need not equal it digit for digit. *)
Definition total_limit_with (layout_a layout_b : str -> option str) (text : str)
    : result (option Decimal) :=
  match limit_string layout_a layout_b text with
  | Some (c :: s) =>
      limit_decimal <- _clean_amount (Some (c :: s)) ;;
      match limit_decimal with
      | Some d => a <- Dec.abs d ;; Return (Some a)
      | None => Return None
      end
  | _ => Return None
  end.

Definition total_limit (text : str) : result (option Decimal) :=
  total_limit_with (search_group1 TOTAL_LIMIT_RE_A)
                   (search_group1 TOTAL_LIMIT_RE_B) text.

(** The body of [parse_statement] once the document is open. *)
Definition parse_statement_body (pages : list RawPage) : result StatementDetails :=
  txs <- parse_pages pages ;;
  limit <- total_limit (page_one_text pages) ;;
  Return (mkDetails limit txs).

(** [except Exception as e: raise ParsingError(...)] around the body. *)
Definition parse_statement (pages : list RawPage) : result StatementDetails :=
  match parse_statement_body pages with
  | Return r => Return r
  | Raise _ => Raise ParsingError
  end.

(** Rows and headers written as lists of string literals. *)
Definition cells (l : list string) : RawRow := map (fun s => Some (lit s)) l.

(** The page text of the credit-limit scenario. *)
Definition scenario4_text : str :=
  lit "TOTAL CREDIT LIMIT" ++ [newline]
  ++ lit "(Including Cash) AVAILABLE CREDIT LIMIT" ++ [newline]
  ++ lit "C3,00,000".


(** ** Vocabulary of the stated properties *)

(** The credit indicator as the specification words it: "cr" anywhere in the
    text, whatever the case, or a "+" at the start of the trimmed text. *)
Definition credit_indicator_spec (text : str) : bool :=
  contains (lit "cr") (lower text) || startswith (lit "+") (strip text).

(** The credit indicator as [_clean_amount] computes it. *)
Definition is_credit (text : str) : bool :=
  is_credit_text (remove_char ","%char (strip text)).

(** The strict date form: two digits, a slash, two digits, a slash, four
    digits, and nothing else. *)
Definition strict_date (s : str) : bool :=
  match s with
  | [a; b; s1; c; d; s2; e; f; g; h] =>
      isdigit a && isdigit b && Ascii.eqb s1 "/"%char
      && isdigit c && isdigit d && Ascii.eqb s2 "/"%char
      && isdigit e && isdigit f && isdigit g && isdigit h
  | _ => false
  end.

(** The text begins with a strict date. *)
Definition starts_with_date (s : str) : bool := strict_date (firstn 10 s).

(** A string of [n] nines. *)
Definition nines (n : nat) : str := repeat "9"%char n.

(** A decimal as the constructor builds it from digits and dots: a
    coefficient of digits without leading zeros and an exponent that is not
    positive. *)
Definition canonical (d : Decimal) : Prop :=
  forallb isdigit (d_int d) = true
  /\ strip_zeros (d_int d) = d_int d
  /\ d_exp d <= 0.

(** [str(d)] is in plain notation, without an exponent part. *)
Definition plain_notation (d : Decimal) : Prop :=
  d_exp d <= 0 /\ -6 < d_exp d + len (d_int d).

(** The header text as the specification words it: the cells that are not
    absent, joined with a separator and put in lower case. *)
Fixpoint present_cells (header : RawRow) : list str :=
  match header with
  | [] => []
  | Some s :: rest => s :: present_cells rest
  | None :: rest => present_cells rest
  end.

Definition header_text_spec (header : RawRow) : str :=
  lower (join (lit " ") (present_cells header)).

(** Some cell of the header contains the word, whatever the case. *)
Definition has_word (w : str) (header : RawRow) : bool :=
  existsb (fun c : cell =>
             match c with
             | Some s => contains w (lower s)
             | None => false
             end) header.


(** The row normalizer rejects the row: it returns, and what it returns is
    [None]. *)
Definition rejects (row : RawRow) : Prop :=
  _parse_transaction_row row = Return None.

(** The date cell once its "|" suffix is dropped and it is trimmed. *)
Definition date_cell (first : str) : str := strip (before_first "|"%char first).

(** The first cell is present and its date cell does not begin with a date. *)
Definition date_fails (row : RawRow) : Prop :=
  exists first,
    hd None row = Some first /\ starts_with_date (date_cell first) = false.

(** The amount normalizer returns [None] for the last cell. *)
Definition amount_absent (row : RawRow) : Prop :=
  _clean_amount (last row None) = Return None.

(** The first cell is present, unless the row has fewer than 3 cells. *)
Definition first_cell_present (row : RawRow) : Prop :=
  len row < 3 \/ exists first, hd None row = Some first.

(** The amount normalizer does not raise for the last cell. *)
Definition amount_returns (row : RawRow) : Prop :=
  forall e, _clean_amount (last row None) <> Raise e.

(** The merchant text is empty or starts with "total", whatever the case. *)
Definition merchant_fails (row : RawRow) : Prop :=
  merchant_of row = []
  \/ startswith (lit "total") (lower (merchant_of row)) = true.

(** What it means for a pattern to match from one state to another, without
    reference to the search order. *)
Inductive Matches : regex -> mstate -> mstate -> Prop :=
| M_eps st : Matches Eps st st
| M_chr p st c s :
    rest st = c :: s -> p c = true ->
    Matches (Chr p) st (mkSt false s (group1 st))
| M_cat r1 r2 st st1 st2 :
    Matches r1 st st1 -> Matches r2 st1 st2 -> Matches (Cat r1 r2) st st2
| M_alt_l r1 r2 st st' : Matches r1 st st' -> Matches (Alt r1 r2) st st'
| M_alt_r r1 r2 st st' : Matches r2 st st' -> Matches (Alt r1 r2) st st'
| M_star p st a s :
    rest st = a ++ s -> forallb p a = true ->
    Matches (Star p) st
      (mkSt (match a with [] => at_start st | _ => false end) s (group1 st))
| M_opt_some r st st' : Matches r st st' -> Matches (Opt r) st st'
| M_opt_none r st : Matches (Opt r) st st
| M_group r st st' :
    Matches r st st' ->
    Matches (Group r) st
      (mkSt (at_start st') (rest st')
         (Some (firstn (List.length (rest st) - List.length (rest st')) (rest st))))
| M_bos st : at_start st = true -> Matches Bos st st
| M_eos st : rest st = [] \/ rest st = [newline] -> Matches Eos st st.

(** A non-empty run of characters of a class. *)
Definition run_of (p : ascii -> bool) (s : str) : Prop :=
  s <> [] /\ forallb p s = true.

(** A sign followed by digits, as "+57". *)
Definition signed_integer (t : str) : Prop :=
  exists sg ds,
    t = sg :: ds /\ (sg = "+"%char \/ sg = "-"%char) /\ run_of isdigit ds.

(** Digits, whitespace and "pts" in any case, as "450 pts". *)
Definition integer_pts (t : str) : Prop :=
  exists ds ws u,
    t = ds ++ ws ++ u /\ run_of isdigit ds /\ run_of isspace ws
    /\ lower u = lit "pts".

(** USD, EUR or GBP in any case, whitespace, and a run of digits and dots, as
    "USD 25.00". *)
Definition currency_amount (t : str) : Prop :=
  exists cur ws num,
    t = cur ++ ws ++ num
    /\ (lower cur = lit "usd" \/ lower cur = lit "eur" \/ lower cur = lit "gbp")
    /\ run_of isspace ws /\ run_of (digit_or "."%char) num.

(** The trimmed cell is a junk column. *)
Definition junk_text (t : str) : Prop :=
  upper t = lit "EMI" \/ upper t = lit "EM"
  \/ signed_integer t \/ integer_pts t \/ currency_amount t.

(** The pieces of the merchant string, cell by cell: an absent or empty cell
    gives none, a cell whose trimmed text is junk gives none, any other cell
    gives its trimmed text (the empty text for a cell of whitespace only). *)
Inductive merchant_pieces : list cell -> list str -> Prop :=
| pieces_nil : merchant_pieces [] []
| pieces_absent cs ps :
    merchant_pieces cs ps -> merchant_pieces (None :: cs) ps
| pieces_empty cs ps :
    merchant_pieces cs ps -> merchant_pieces (Some [] :: cs) ps
| pieces_junk p cs ps :
    p <> [] -> junk_text (strip p) ->
    merchant_pieces cs ps -> merchant_pieces (Some p :: cs) ps
| pieces_kept p cs ps :
    p <> [] -> ~ junk_text (strip p) ->
    merchant_pieces cs ps -> merchant_pieces (Some p :: cs) (strip p :: ps).

(** The merchant as the specification words it: the middle cells that are not
    empty after trimming and are not junk, trimmed and joined by single
    spaces. *)
Fixpoint kept_spec (cs : list cell) : list str :=
  match cs with
  | [] => []
  | None :: cs' => kept_spec cs'
  | Some p :: cs' =>
      if Str.eqb (strip p) [] || is_junk (strip p) then kept_spec cs'
      else strip p :: kept_spec cs'
  end.

Definition merchant_spec (row : RawRow) : str :=
  join (lit " ") (kept_spec (middle row)).

(** ** The other metadata rules of [parse_statement] *)

(** Regex [\w] on code points below 256. *)
Definition is_word_char (c : ascii) : bool :=
  between 48 57 c || between 65 90 c || (code c =? 95)%N || between 97 122 c
  || (code c =? 170)%N || between 178 179 c || (code c =? 181)%N
  || between 185 186 c || between 188 190 c
  || between 192 214 c || between 216 246 c || between 248 255 c.

(** [words_to_remove], in lower case for the IGNORECASE comparison. *)
Definition words_to_remove : list str :=
  [lit "hdfc"; lit "bank"; lit "credit"; lit "card"; lit "statement"].

(** The word [w] (in lower case) matches at the start of [s] under
    IGNORECASE. *)
Fixpoint istartswith (w s : str) : bool :=
  match w, s with
  | [], _ => true
  | x :: w', y :: s' => Ascii.eqb (lower_char y) x && istartswith w' s'
  | _ :: _, [] => false
  end.

(** [\b] after the first [n] characters of [s], the one before being a word
    character: the text ends there or goes on with a character that is not
    one. *)
Definition boundary_after (n : nat) (s : str) : bool :=
  match nth_error s n with
  | Some c => negb (is_word_char c)
  | None => true
  end.

(** The alternation between two [\b], tried in the order of the list, at a
    position whose previous character is a word character or not: the length
    of the word that matches there. *)
Definition word_at (prev_word : bool) (s : str) : option nat :=
  if prev_word then None
  else
    match find (fun w => istartswith w s && boundary_after (List.length w) s)
               words_to_remove with
    | Some w => Some (List.length w)
    | None => None
    end.

(** [pattern.sub('', s)]: the scan from left to right, [skip] characters of a
    matched word still to be dropped. *)
Fixpoint sub_words (skip : nat) (prev_word : bool) (s : str) : str :=
  match s with
  | [] => []
  | c :: s' =>
      match skip with
      | S k => sub_words k (is_word_char c) s'
      | O =>
          match word_at prev_word s with
          | Some n => sub_words (n - 1) (is_word_char c) s'
          | None => c :: sub_words 0 (is_word_char c) s'
          end
      end
  end.

(** [s.split()]: the maximal runs of characters that are not whitespace. *)
Fixpoint split_ws (s : str) : list str :=
  match s with
  | [] => []
  | c :: s' =>
      if isspace c then split_ws s'
      else
        match s' with
        | [] => [[c]]
        | d :: _ =>
            if isspace d then [c] :: split_ws s'
            else
              match split_ws s' with
              | w :: ws => (c :: w) :: ws
              | [] => [[c]]
              end
        end
  end.

Definition _clean_card_name (full_name : str) : str :=
  join (lit " ") (split_ws (sub_words 0 false full_name)).

(** [pattern.search(s)] for a pattern that opens with [^] under MULTILINE;
    [r] is the pattern after its [^].  A match may start at the start of the
    text and just after each newline. *)
Fixpoint search_lines_from (r : regex) (first line_start : bool) (s : str)
    : option mstate :=
  match (if line_start then run r (mkSt first s None) Some else None) with
  | Some st => Some st
  | None =>
      match s with
      | [] => None
      | c :: s' => search_lines_from r false (Ascii.eqb c newline) s'
      end
  end.

Definition search_lines_group1 (r : regex) (s : str) : option str :=
  match search_lines_from r true true s with
  | Some st => Some (match group1 st with Some g => g | None => [] end)
  | None => None
  end.

(** CARD_NAME_RE after its [^]: \s* , the group (.* Credit Card) and the
    literal " Statement". *)
Definition CARD_NAME_RE : regex :=
  cats [Star isspace; Group (Cat (Star dot) (lits " Credit Card"));
        lits " Statement"].

(** The class [A-Z\s]. *)
Definition caps_or_space (c : ascii) : bool := between 65 90 c || isspace c.

(** NAME_ON_CARD_RE after its [^]: \s* , the group of 10 or more [A-Z\s],
    \s+ and the literal "Credit Card No.". *)
Definition NAME_ON_CARD_RE : regex :=
  cats [Star isspace;
        Group (cats (repeat (Chr caps_or_space) 10 ++ [Star caps_or_space]));
        plus isspace; lits "Credit Card No."].

(** A lazy [p*?] followed by [k]: the shortest run first. *)
Fixpoint lazy_star {A} (p : ascii -> bool) (s : str) (k : str -> option A)
    : option A :=
  match k s with
  | Some x => Some x
  | None =>
      match s with
      | c :: s' => if p c then lazy_star p s' k else None
      | [] => None
      end
  end.

(** CARD_NUMBER_RE at one start position: the literal "Credit Card No.", a
    lazy .*? , the mask "XXXXXX" and the group of four digits. *)
Definition card_number_at (b : bool) (s : str) : option mstate :=
  run (lits "Credit Card No.") (mkSt b s None)
    (fun st =>
       lazy_star dot (rest st)
         (fun s' =>
            run (Cat (lits "XXXXXX")
                   (Group (cats [Chr isdigit; Chr isdigit; Chr isdigit; Chr isdigit])))
                (mkSt false s' None) Some)).

Fixpoint card_number_search (b : bool) (s : str) : option mstate :=
  match card_number_at b s with
  | Some st => Some st
  | None =>
      match s with
      | [] => None
      | _ :: s' => card_number_search false s'
      end
  end.

(** The three rules, on the text of the first page. *)
Definition card_name_of (text : str) : option str :=
  match search_lines_group1 CARD_NAME_RE text with
  | Some g => Some (_clean_card_name (strip g))
  | None => None
  end.

Definition name_on_card_of (text : str) : option str :=
  match search_lines_group1 NAME_ON_CARD_RE text with
  | Some g => Some (strip g)
  | None => None
  end.

Definition card_last_4_digits_of (text : str) : option str :=
  match card_number_search true text with
  | Some st => Some (match group1 st with Some g => g | None => [] end)
  | None => None
  end.

(** ** Opening the document, and the service endpoint of [main.py] *)

(** What [pdfplumber.open] does with the bytes and the password. *)
Inductive open_outcome : Type :=
| Opened (pages : list RawPage)
| OpenedNone          (* an object that is false in a condition *)
| WrongPassword       (* raises, the password being refused *)
| OpenFailed.         (* raises for any other reason *)

(** How a call of [parse_statement] ends for its caller. *)
Inductive statement_outcome : Type :=
| Statement (r : StatementDetails)
| RaisesPasswordError
| RaisesParsingError
| RaisesAttributeError.

(** [parse_statement(file_bytes, password)], the opening included.

    When [pdfplumber.open] raises, the handlers of the [try] are tried in
    their order, and the first one, [except pdfplumber.errors.PasswordError],
    starts by looking its class up.  [errors_resolves] tells whether the
    installed pdfplumber has an attribute [errors] with that class.  If it
    has, a refused password is answered by the service's [PasswordError] and
    any other failure, by the second handler, with [ParsingError].  If it
    has not (pdfplumber has no module of that name), the lookup raises
    AttributeError inside the handler list: no handler of this [try] is run,
    and AttributeError leaves [parse_statement] whatever [open] raised.

    Once the document is open, every exception of the body is turned into
    [ParsingError]. *)
Definition parse_statement_call (errors_resolves : bool) (o : open_outcome)
    : statement_outcome :=
  match o with
  | WrongPassword =>
      if errors_resolves then RaisesPasswordError else RaisesAttributeError
  | OpenFailed =>
      if errors_resolves then RaisesParsingError else RaisesAttributeError
  | OpenedNone => RaisesParsingError
  | Opened pages =>
      match parse_statement pages with
      | Return r => Statement r
      | Raise _ => RaisesParsingError
      end
  end.

(** [s.endswith(p)]. *)
Definition endswith (p s : str) : bool := startswith (rev p) (rev s).

(** The file-type test of the endpoint:
    [file.filename and file.filename.lower().endswith('.pdf')]. *)
Definition pdf_filename (filename : option str) : bool :=
  match filename with
  | None | Some [] => false
  | Some f => endswith (lit ".pdf") (lower f)
  end.

(** What [parse_pdf_statement] answers: the details, or an [HTTPException]
    with its status code. *)
Inductive response : Type :=
| Details (r : StatementDetails)
| HTTPError (status_code : Z).

(** [parse_pdf_statement(password, file)]: [read_ok] tells whether reading
    the upload succeeds, [o] what opening the document does.  The handlers
    are those of the endpoint: [PasswordError] gives 400, [ParsingError] 422
    and any other exception, by [except Exception], 500. *)
Definition parse_pdf_statement (errors_resolves : bool) (filename : option str)
    (read_ok : bool) (o : open_outcome) : response :=
  if negb (pdf_filename filename) then HTTPError 400
  else if negb read_ok then HTTPError 500
  else
    match parse_statement_call errors_resolves o with
    | Statement r => Details r
    | RaisesPasswordError => HTTPError 400
    | RaisesParsingError => HTTPError 422
    | RaisesAttributeError => HTTPError 500
    end.

(** ** Vocabulary of the further properties *)

(** The text has no whitespace at either end. *)
Definition trimmed (s : str) : Prop := strip s = s.

(** What a transaction of the result always satisfies besides its date
    pattern. *)
Definition date_clean (t : Transaction) : Prop :=
  trimmed (date t) /\ ~ In "|"%char (date t).

Definition merchant_clean (t : Transaction) : Prop :=
  merchant t <> [] /\ trimmed (merchant t)
  /\ startswith (lit "total") (lower (merchant t)) = false.

(** The exact result for a parsed amount: negated when the credit test holds
    and the amount is not zero. *)
Definition signed_amount (credit : bool) (a : Decimal) : Decimal :=
  if credit && negb (is_zero a) then copy_negate a else a.

(** Some single cell of the header contains the word, whatever the case. *)
Definition word_in_some_cell (w : str) (header : RawRow) : Prop :=
  exists s, In (Some s) header /\ contains w (lower s) = true.

(** A row that cannot make the row normalizer raise: its first cell is
    present unless it has fewer than 3 cells, and its last cell, when present,
    has fewer than 1 000 000 characters. *)
Definition safe_row (row : RawRow) : Prop :=
  (len row < 3 \/ exists first, hd None row = Some first)
  /\ forall s, last row None = Some s -> len s < 1000000.

(** The token that the limit patterns capture: a non-empty run of digits and
    commas, then possibly a dot, then possibly more digits. *)
Definition limit_token (g : str) : Prop :=
  exists ds pt frac,
    g = ds ++ pt ++ frac
    /\ run_of (digit_or ","%char) ds
    /\ (pt = [] \/ pt = ["."%char])
    /\ forallb isdigit frac = true.

(** Layout A's capture when it matches, otherwise layout B's. *)
Definition captured_limit (text g : str) : Prop :=
  search_group1 TOTAL_LIMIT_RE_A text = Some g
  \/ (search_group1 TOTAL_LIMIT_RE_A text = None
      /\ search_group1 TOTAL_LIMIT_RE_B text = Some g).

(** Pages none of whose rows below a header can make the row normalizer
    raise. *)
Definition safe_pages (pages : list RawPage) : Prop :=
  Forall (fun p => Forall (fun t => Forall safe_row (tl t)) (tables p)) pages.

(** A word as [str.split] returns it: not empty, without whitespace. *)
Definition spaceless_word (w : str) : Prop :=
  w <> [] /\ forallb (fun c => negb (isspace c)) w = true.

(** A text made of such words, separated by single spaces. *)
Definition single_spaced (s : str) : Prop :=
  exists words, s = join (lit " ") words /\ Forall spaceless_word words.

(** A plain word: not empty, made of word characters only. *)
Definition plain_word (t : str) : Prop :=
  t <> [] /\ forallb is_word_char t = true.

(** The word is one of the generic words, whatever its case. *)
Definition generic (t : str) : bool :=
  existsb (Str.eqb (lower t)) words_to_remove.

(** The text ahead starts with a character that is not a word character, or
    is empty. *)
Definition head_nonword (r : str) : Prop :=
  match r with
  | [] => True
  | c :: _ => is_word_char c = false
  end.

(** The number of dots of a text, and its digits. *)
Definition dots (s : str) : nat :=
  List.length (filter (fun c => Ascii.eqb c "."%char) s).

Definition digits_of (s : str) : str := filter isdigit s.

(** A middle cell that gives no piece of the merchant. *)
Definition invisible_cell (c : cell) : Prop :=
  match c with
  | None | Some [] => True
  | Some p => junk_text (strip p)
  end.

(** A table that is not a ledger: empty, or with a header that the
    classifier refuses. *)
Definition not_a_ledger (t : RawTable) : Prop :=
  match t with
  | [] => True
  | header :: _ => _is_transaction_table header = false
  end.

(** * Checks on concrete inputs *)

(** ** The docstring examples of [_clean_amount] and the decimal operations *)

Example clean_plain :
  _clean_amount (Some (lit "1,234.56")) = Return (Some (mkDec false (lit "123456") (-2))).
Proof. reflexivity. Qed.

Example clean_plus :
  _clean_amount (Some (lit "+86,962.00")) = Return (Some (mkDec true (lit "8696200") (-2))).
Proof. reflexivity. Qed.

Example clean_marker :
  _clean_amount (Some (lit "C3,00,000")) = Return (Some (mkDec false (lit "300000") 0)).
Proof. reflexivity. Qed.

Example clean_cr_suffix :
  _clean_amount (Some (lit "1,234.56 Cr")) = Return (Some (mkDec true (lit "123456") (-2))).
Proof. reflexivity. Qed.

Example clean_two_dots : _clean_amount (Some (lit "1.2.3")) = Return None.
Proof. reflexivity. Qed.

Example to_str_small : to_str (mkDec false (lit "1") (-7)) = lit "1E-7".
Proof. reflexivity. Qed.

Example to_str_plain : to_str (mkDec true (lit "750") (-2)) = lit "-7.50".
Proof. reflexivity. Qed.

Example neg_rounds :
  neg (mkDec false (lit "12345678901234567890123456789012345") 0)
  = Return (mkDec true (lit "1234567890123456789012345679") 7).
Proof. reflexivity. Qed.

(** ** The scenarios of the specification *)

Example scenario1_header :
  _is_transaction_table (cells ["Date"%string; "Transaction Details"%string; "Amount"%string]) = true.
Proof. reflexivity. Qed.

Example scenario1_row :
  _parse_transaction_row (cells ["08/10/2025"%string; "AMAZON PAY"%string; "1,234.56"%string])
  = Return (Some (mkTx (lit "08/10/2025") (lit "AMAZON PAY")
                       (mkDec false (lit "123456") (-2)))).
Proof. reflexivity. Qed.

Example scenario2_row :
  _parse_transaction_row (cells ["09/10/2025"%string; "PAYMENT RECEIVED"%string; "+86,962.00"%string])
  = Return (Some (mkTx (lit "09/10/2025") (lit "PAYMENT RECEIVED")
                       (mkDec true (lit "8696200") (-2)))).
Proof. reflexivity. Qed.

Example scenario3_row :
  _parse_transaction_row
    (cells ["10/10/2025"%string; "STARBUCKS"%string; "EMI"%string; "USD 4.50"%string; "450 pts"%string; "C500.00"%string])
  = Return (Some (mkTx (lit "10/10/2025") (lit "STARBUCKS")
                       (mkDec false (lit "50000") (-2)))).
Proof. reflexivity. Qed.

Example scenario4_limit :
  total_limit scenario4_text = Return (Some (mkDec false (lit "300000") 0)).
Proof. reflexivity. Qed.

Example scenario6_header :
  _is_transaction_table (cells ["S.No"%string; "Description"%string]) = false.
Proof. reflexivity. Qed.

(** * Properties *)

(** ** Strings *)

Lemma str_eqb_eq (a b : str) : Str.eqb a b = true <-> a = b.
Proof.
  revert b; induction a as [|x a IH]; intros [|y b]; simpl; split; try easy.
  - intros H. apply andb_true_iff in H as [H1 H2].
    apply Ascii.eqb_eq in H1. apply IH in H2. congruence.
  - intros [= -> ->]. rewrite Ascii.eqb_refl. now apply IH.
Qed.

Lemma str_eqb_refl (a : str) : Str.eqb a a = true.
Proof. now apply str_eqb_eq. Qed.

Lemma rstrip_id (s : str) :
  forallb (fun c => negb (isspace c)) s = true -> rstrip s = s.
Proof.
  induction s as [|c s IH]; simpl; intros H; [reflexivity|].
  apply andb_true_iff in H as [H1 H2]. rewrite (IH H2).
  destruct s; [|reflexivity].
  apply negb_true_iff in H1. now rewrite H1.
Qed.

Lemma lstrip_id (s : str) :
  forallb (fun c => negb (isspace c)) s = true -> lstrip s = s.
Proof.
  destruct s as [|c s]; simpl; intros H; [reflexivity|].
  apply andb_true_iff in H as [H1 _]. apply negb_true_iff in H1. now rewrite H1.
Qed.

Lemma strip_id (s : str) :
  forallb (fun c => negb (isspace c)) s = true -> strip s = s.
Proof. intros H. unfold strip. rewrite (lstrip_id s H). now apply rstrip_id. Qed.

Lemma forallb_impl {A} (f g : A -> bool) (l : list A) :
  (forall x, f x = true -> g x = true) ->
  forallb f l = true -> forallb g l = true.
Proof.
  intros Hfg. induction l as [|x l IH]; simpl; [easy|].
  intros H. apply andb_true_iff in H as [H1 H2].
  now rewrite (Hfg x H1), (IH H2).
Qed.

Lemma forallb_repeat {A} (f : A -> bool) (x : A) (n : nat) :
  f x = true -> forallb f (repeat x n) = true.
Proof. intros H. induction n; simpl; [reflexivity|]. now rewrite H. Qed.

(** ** Decimal operations *)

Lemma of_str_sign (s : str) (d : Decimal) : of_str s = Some d -> d_sign d = false.
Proof.
  unfold of_str. destruct (_ && _); [|discriminate]. now intros [= <-].
Qed.

Lemma _fix_sign (d v : Decimal) : _fix d = Return v -> d_sign v = d_sign d.
Proof.
  unfold _fix.
  repeat match goal with
         | |- context [if ?c then _ else _] => destruct c
         end; intros H; inversion H; reflexivity.
Qed.

Lemma _fix_zero (d v : Decimal) :
  is_zero d = true -> _fix d = Return v -> is_zero v = true.
Proof.
  unfold _fix. intros Hz. rewrite Hz.
  destruct (_ =? _); intros [= <-]; [exact Hz | reflexivity].
Qed.

Lemma neg_of_unsigned (d v : Decimal) :
  d_sign d = false -> neg d = Return v ->
  (is_zero d = true /\ is_zero v = true /\ d_sign v = false)
  \/ (is_zero d = false /\ d_sign v = true).
Proof.
  unfold neg. intros Hs. destruct (is_zero d) eqn:Hz; intros H.
  - left. split; [reflexivity|]. split.
    + apply (_fix_zero (copy_abs d)); [exact Hz | exact H].
    + now rewrite (_fix_sign _ _ H).
  - right. split; [reflexivity|].
    rewrite (_fix_sign _ _ H). simpl. now rewrite Hs.
Qed.

Lemma neg_overflow (d : Decimal) :
  is_zero d = false -> Etop < len (d_int d) + d_exp d - prec ->
  neg d = Raise DecimalOverflow.
Proof.
  intros Hz Hbig. unfold neg. rewrite Hz. unfold _fix.
  change (is_zero (copy_negate d)) with (is_zero d). rewrite Hz.
  change (d_int (copy_negate d)) with (d_int d).
  change (d_exp (copy_negate d)) with (d_exp d).
  destruct (len (d_int d) + d_exp d - prec >? Etop) eqn:Hcmp; [reflexivity|].
  rewrite Z.gtb_ltb, Z.ltb_ge in Hcmp. lia.
Qed.


(** ** The amount normalizer *)

Ltac char_cases c :=
  destruct c as [[|] [|] [|] [|] [|] [|] [|] [|]]; try reflexivity; try discriminate.

Lemma space_not_numeric (c : ascii) : isspace c = true -> numeric c = false.
Proof. char_cases c. Qed.

Lemma numeric_not_space (c : ascii) : numeric c = true -> negb (isspace c) = true.
Proof. char_cases c. Qed.

Lemma numeric_not_comma (c : ascii) :
  numeric c = true -> negb (Ascii.eqb c ","%char) = true.
Proof. char_cases c. Qed.

Lemma keep_numeric_lstrip (s : str) : keep_numeric (lstrip s) = keep_numeric s.
Proof.
  induction s as [|c s IH]; simpl; [reflexivity|].
  destruct (isspace c) eqn:Hc; [|reflexivity].
  apply space_not_numeric in Hc. now rewrite Hc.
Qed.

Lemma keep_numeric_rstrip (s : str) : keep_numeric (rstrip s) = keep_numeric s.
Proof.
  induction s as [|c s IH]; [reflexivity|].
  cbn [rstrip]. unfold keep_numeric in *.
  destruct (rstrip s) as [|r rs] eqn:Hr.
  - cbn [filter] in *. rewrite <- IH.
    destruct (isspace c) eqn:Hc; [|reflexivity].
    apply space_not_numeric in Hc. now rewrite Hc.
  - cbn [filter] in *. now rewrite IH.
Qed.

Lemma keep_numeric_no_commas (s : str) :
  keep_numeric (remove_char ","%char s) = keep_numeric s.
Proof.
  induction s as [|c s IH]; [reflexivity|].
  unfold keep_numeric, remove_char in *. cbn [filter].
  destruct (Ascii.eqb c ","%char) eqn:Hc; cbn [negb filter].
  - apply Ascii.eqb_eq in Hc. subst c. exact IH.
  - now rewrite IH.
Qed.

Lemma keep_numeric_prepared (text : str) :
  keep_numeric (remove_char ","%char (strip text)) = keep_numeric text.
Proof.
  rewrite keep_numeric_no_commas. unfold strip.
  now rewrite keep_numeric_rstrip, keep_numeric_lstrip.
Qed.

Lemma of_str_nil : of_str [] = None.
Proof. reflexivity. Qed.

(** [_clean_amount] in one equation: the digits and dots of the text are
    parsed, and the result is negated when the credit test holds. *)
Lemma clean_amount_eq (text : str) :
  _clean_amount (Some text) =
  match of_str (keep_numeric text) with
  | None => Return None
  | Some amount =>
      if is_credit text then (a <- neg amount ;; Return (Some a))
      else Return (Some amount)
  end.
Proof.
  destruct text as [|c text]; [reflexivity|].
  unfold _clean_amount, is_credit. rewrite keep_numeric_prepared.
  destruct (keep_numeric (c :: text)); [reflexivity|]. reflexivity.
Qed.

Lemma before_first_id (x : ascii) (s : str) :
  forallb (fun c => negb (Ascii.eqb c x)) s = true -> before_first x s = s.
Proof.
  induction s as [|c s IH]; simpl; [reflexivity|].
  intros H. apply andb_true_iff in H as [H1 H2].
  apply negb_true_iff in H1. rewrite H1. now rewrite IH.
Qed.

Lemma len_repeat {A} (x : A) (n : nat) : len (repeat x n) = Z.of_nat n.
Proof. unfold len. now rewrite repeat_length. Qed.

Lemma of_str_nines (n : nat) :
  of_str (nines (S n)) = Some (mkDec false (nines (S n)) 0).
Proof.
  unfold of_str, nines.
  rewrite before_first_id by now apply forallb_repeat.
  rewrite skipn_all. cbn [tl]. rewrite app_nil_r.
  rewrite (forallb_repeat isdigit) by reflexivity. reflexivity.
Qed.

Lemma clean_amount_plus_nines (n : nat) :
  Etop < Z.of_nat (S n) - prec ->
  _clean_amount (Some ("+"%char :: nines (S n))) = Raise DecimalOverflow.
Proof.
  intros Hbig. rewrite clean_amount_eq.
  assert (Hk : keep_numeric ("+"%char :: nines (S n)) = nines (S n)).
  { unfold keep_numeric. cbn [filter]. change (numeric "+"%char) with false.
    cbv iota. apply forallb_filter_id. now apply forallb_repeat. }
  rewrite Hk, of_str_nines.
  assert (Hc : is_credit ("+"%char :: nines (S n)) = true).
  { unfold is_credit. rewrite strip_id.
    - unfold remove_char. rewrite forallb_filter_id.
      + unfold is_credit_text. apply orb_true_iff. right. reflexivity.
      + cbn [forallb]. apply andb_true_iff. split; [reflexivity|].
        now apply forallb_repeat.
    - cbn [forallb]. apply andb_true_iff. split; [reflexivity|].
      now apply forallb_repeat. }
  rewrite Hc, neg_overflow; [reflexivity | reflexivity |].
  cbn [d_int d_exp]. unfold nines. rewrite len_repeat. lia.
Qed.

(** C9.  [_clean_amount] is not total: on a credit amount of 1 000 001 digits
    the negation [-amount] overflows the decimal context (precision 28,
    Emax 999999), [decimal.Overflow] is a trapped signal, and the [except]
    clause of [_clean_amount] catches only [InvalidOperation] and
    [ValueError], so the exception leaves the function. *)
Theorem clean_amount_raises_overflow :
  _clean_amount (Some ("+"%char :: nines (S (N.to_nat 1000000)))) = Raise DecimalOverflow.
Proof.
  apply clean_amount_plus_nines.
  rewrite Nat2Z.inj_succ, N_nat_Z. reflexivity.
Qed.

(** C1, as stated, fails.  "+0" carries a credit indicator and normalizes to
    zero, which is not negative; ",+5" has no "cr" and does not start with
    "+" after trimming, yet normalizes to -5, because the commas are removed
    before the sign test. *)
Lemma clean_amount_sign_counterexample :
  (credit_indicator_spec (lit "+0") = true
   /\ _clean_amount (Some (lit "+0")) = Return (Some (mkDec false (lit "0") 0))
   /\ is_negative (mkDec false (lit "0") 0) = false)
  /\ (credit_indicator_spec (lit ",+5") = false
      /\ _clean_amount (Some (lit ",+5")) = Return (Some (mkDec true (lit "5") 0))
      /\ is_positive (mkDec true (lit "5") 0) = false).
Proof. repeat split. Qed.

(** C1, amended.  With the credit indicator taken on the trimmed text after
    its commas are removed ("cr" anywhere, whatever the case, or a leading
    "+"), a numeric result is negative or zero when the indicator is present
    and positive or zero when it is not. *)
Theorem clean_amount_sign (text : str) (v : Decimal) :
  _clean_amount (Some text) = Return (Some v) ->
  if is_credit text
  then is_negative v = true \/ is_zero v = true
  else is_positive v = true \/ is_zero v = true.
Proof.
  rewrite clean_amount_eq.
  destruct (of_str (keep_numeric text)) as [amount|] eqn:Hp; [|discriminate].
  pose proof (of_str_sign _ _ Hp) as Hs.
  destruct (is_credit text).
  - destruct (neg amount) as [a|e] eqn:Hn; [|discriminate].
    cbn [bind]. intros [= ->].
    destruct (neg_of_unsigned _ _ Hs Hn) as [(_ & Hz & _) | (_ & Hv)].
    + now right.
    + unfold is_negative. rewrite Hv. destruct (is_zero v); [now right | now left].
  - intros [= <-]. unfold is_positive. rewrite Hs.
    destruct (is_zero amount); [now right | now left].
Qed.

Lemma clean_amount_sign_witness :
  is_negative (mkDec true (lit "8696200") (-2)) = true
  \/ is_zero (mkDec true (lit "8696200") (-2)) = true.
Proof.
  exact (clean_amount_sign (lit "+86,962.00") (mkDec true (lit "8696200") (-2)) eq_refl).
Defined.

(** C10, as stated, fails: "-" has a leading minus sign and no credit
    indicator and normalizes to absence, and "-0" normalizes to zero, which is
    not positive. *)
Lemma clean_amount_leading_minus_counterexample :
  (startswith (lit "-") (lit "-") = true
   /\ credit_indicator_spec (lit "-") = false
   /\ _clean_amount (Some (lit "-")) = Return None)
  /\ (startswith (lit "-") (lit "-0") = true
      /\ credit_indicator_spec (lit "-0") = false
      /\ _clean_amount (Some (lit "-0")) = Return (Some (mkDec false (lit "0") 0))
      /\ is_positive (mkDec false (lit "0") 0) = false).
Proof. repeat split. Qed.

(** C10, amended.  For a text with a leading minus sign and no credit
    indicator, [_clean_amount] returns what the digits and dots after the
    minus sign denote: absence when they form no number, otherwise a value
    whose sign flag is clear, so never a negative one, and a positive one
    unless it is zero. *)
Theorem clean_amount_leading_minus (s : str) :
  is_credit ("-"%char :: s) = false ->
  _clean_amount (Some ("-"%char :: s)) = Return (of_str (keep_numeric s))
  /\ forall v, of_str (keep_numeric s) = Some v ->
       d_sign v = false /\ is_negative v = false
       /\ is_positive v = negb (is_zero v).
Proof.
  intros Hc. split.
  - rewrite clean_amount_eq, Hc.
    change (keep_numeric ("-"%char :: s)) with (keep_numeric s).
    now destruct (of_str (keep_numeric s)).
  - intros v Hv. pose proof (of_str_sign _ _ Hv) as Hs.
    unfold is_negative, is_positive. now rewrite Hs.
Qed.

Lemma clean_amount_leading_minus_witness :
  _clean_amount (Some (lit "-500")) = Return (of_str (keep_numeric (lit "500"))).
Proof.
  exact (proj1 (clean_amount_leading_minus (lit "500") eq_refl)).
Defined.

(** ** The row normalizer *)

(** What a returned transaction tells about its row. *)
Lemma parse_row_inv (row : RawRow) (tx : Transaction) :
  _parse_transaction_row row = Return (Some tx) ->
  3 <= len row
  /\ (exists first, hd None row = Some first
                    /\ date tx = strip (before_first "|"%char first))
  /\ matches TX_DATE_RE (date tx) = true
  /\ _clean_amount (last row None) = Return (Some (amount tx))
  /\ merchant tx = merchant_of row
  /\ merchant_of row <> []
  /\ startswith (lit "total") (lower (merchant_of row)) = false.
Proof.
  unfold _parse_transaction_row.
  destruct (len row <? 3) eqn:Hlen; [discriminate|].
  apply Z.ltb_ge in Hlen.
  destruct (hd None row) as [first|]; [|discriminate].
  destruct (matches TX_DATE_RE (strip (before_first "|"%char first))) eqn:Hd;
    [|discriminate].
  cbn [negb].
  destruct (_clean_amount (last row None)) as [[a|]|e]; cbn [bind]; try discriminate.
  destruct (Str.eqb (merchant_of row) []) eqn:He; [discriminate|].
  destruct (startswith (lit "total") (lower (merchant_of row))) eqn:Ht;
    [discriminate|].
  cbn [orb]. intros [= <-]. cbn [date merchant amount].
  repeat split; try assumption; try reflexivity.
  - now exists first.
  - intros E. rewrite E in He. discriminate.
Qed.

Ltac split_test H :=
  match type of H with
  | match (if ?c then _ else _) with Some _ => _ | None => _ end = _ =>
      destruct c eqn:?
  end; cbn -[isdigit Ascii.eqb] in H.

Lemma matches_date_prefix (s : str) :
  matches TX_DATE_RE s = true -> starts_with_date s = true.
Proof.
  unfold matches, match_, starts_with_date. intros H.
  do 10 (destruct s as [|? s];
         [ exfalso; cbn -[isdigit Ascii.eqb] in H;
           repeat split_test H; discriminate H | ]).
  cbn -[isdigit Ascii.eqb] in H |- *.
  repeat (split_test H; [|discriminate H]).
  repeat match goal with
         | E : Ascii.eqb _ _ = true |- _ => apply Ascii.eqb_eq in E; subst
         end.
  repeat match goal with
         | E : isdigit _ = true |- _ => rewrite E; clear E
         end.
  reflexivity.
Qed.

Section Collect.
Variable P : Transaction -> Prop.
Hypothesis row_ok :
  forall row tx, _parse_transaction_row row = Return (Some tx) -> P tx.

Lemma parse_rows_all rows txs :
  parse_rows rows = Return txs -> Forall P txs.
Proof.
  revert txs. induction rows as [|row rows IH]; cbn [parse_rows]; intros txs.
  - intros [= <-]. constructor.
  - destruct (_parse_transaction_row row) as [tx|e] eqn:Hr; [|discriminate].
    cbn [bind]. destruct (parse_rows rows) as [txs'|e]; [|discriminate].
    cbn [bind]. intros [= <-]. specialize (IH _ eq_refl).
    destruct tx as [t|]; [|exact IH].
    constructor; [now apply (row_ok row) | exact IH].
Qed.

Lemma parse_table_all table txs :
  parse_table table = Return txs -> Forall P txs.
Proof.
  destruct table as [|header rows]; cbn [parse_table].
  - intros [= <-]. constructor.
  - destruct (_is_transaction_table header).
    + apply parse_rows_all.
    + intros [= <-]. constructor.
Qed.

Lemma parse_tables_all ts txs :
  parse_tables ts = Return txs -> Forall P txs.
Proof.
  revert txs. induction ts as [|t ts IH]; cbn [parse_tables]; intros txs.
  - intros [= <-]. constructor.
  - destruct (parse_table t) as [a|e] eqn:Ha; [|discriminate].
    cbn [bind]. destruct (parse_tables ts) as [b|e]; [|discriminate].
    cbn [bind]. intros [= <-]. apply Forall_app. split.
    + now apply (parse_table_all t).
    + now apply IH.
Qed.

Lemma parse_pages_all pages txs :
  parse_pages pages = Return txs -> Forall P txs.
Proof.
  revert txs. induction pages as [|p pages IH]; cbn [parse_pages]; intros txs.
  - intros [= <-]. constructor.
  - destruct (match layoutText p with [] => Return [] | _ => parse_tables (tables p) end)
      as [a|e] eqn:Ha; [|discriminate].
    cbn [bind]. destruct (parse_pages pages) as [b|e]; [|discriminate].
    cbn [bind]. intros [= <-]. apply Forall_app. split.
    + destruct (layoutText p).
      * injection Ha as <-. constructor.
      * now apply (parse_tables_all (tables p)).
    + now apply IH.
Qed.

Lemma parse_statement_all pages r :
  parse_statement pages = Return r -> Forall P (transactions r).
Proof.
  unfold parse_statement, parse_statement_body.
  destruct (parse_pages pages) as [txs|e] eqn:Hp; [|discriminate].
  cbn [bind]. destruct (total_limit (page_one_text pages)); [|discriminate].
  cbn [bind]. intros [= <-]. cbn [transactions].
  now apply (parse_pages_all pages).
Qed.
End Collect.

(** C3, as stated, fails: the date pattern is only matched at the start of the
    date cell, so a row whose date cell goes on after the date is accepted and
    the transaction stores the whole cell. *)
Lemma transaction_date_counterexample :
  _parse_transaction_row
    (cells ["08/10/2025xyz"%string; "AMAZON PAY"%string; "100"%string])
  = Return (Some (mkTx (lit "08/10/2025xyz") (lit "AMAZON PAY")
                       (mkDec false (lit "100") 0)))
  /\ strict_date (lit "08/10/2025xyz") = false.
Proof. split; reflexivity. Qed.

(** C3, amended.  The date of every transaction that the row normalizer
    returns begins with two digits, a slash, two digits, a slash and four
    digits (any text may follow), and so does the date of every transaction
    in the result of [parse_statement]. *)
Theorem transaction_date_starts_with_pattern
    (row : RawRow) (tx : Transaction) (pages : list RawPage) (r : StatementDetails) :
  (_parse_transaction_row row = Return (Some tx) ->
   starts_with_date (date tx) = true)
  /\ (parse_statement pages = Return r ->
      Forall (fun t => starts_with_date (date t) = true) (transactions r)).
Proof.
  assert (Hrow : forall row tx, _parse_transaction_row row = Return (Some tx) ->
                                starts_with_date (date tx) = true).
  { intros row' tx' H. apply parse_row_inv in H as (_ & _ & Hd & _).
    now apply matches_date_prefix. }
  split.
  - apply Hrow.
  - now apply parse_statement_all.
Qed.

Lemma transaction_date_starts_with_pattern_witness :
  starts_with_date (lit "08/10/2025") = true
  /\ Forall (fun t => starts_with_date (date t) = true)
       [mkTx (lit "08/10/2025") (lit "AMAZON PAY") (mkDec false (lit "123456") (-2))].
Proof.
  destruct (transaction_date_starts_with_pattern
              (cells ["08/10/2025"%string; "AMAZON PAY"%string; "1,234.56"%string])
              (mkTx (lit "08/10/2025") (lit "AMAZON PAY") (mkDec false (lit "123456") (-2)))
              [mkPage (lit "statement")
                 [[cells ["Date"%string; "Transaction Details"%string; "Amount"%string];
                   cells ["08/10/2025"%string; "AMAZON PAY"%string; "1,234.56"%string]]]]
              (mkDetails None
                 [mkTx (lit "08/10/2025") (lit "AMAZON PAY")
                       (mkDec false (lit "123456") (-2))]))
    as [Hrow Hall].
  split; [exact (Hrow eq_refl) | exact (Hall eq_refl)].
Defined.

(** C7.  A row whose first cell is absent makes [_parse_transaction_row]
    raise instead of rejecting, and the exception ends the whole
    [parse_statement] call with [ParsingError]. *)
Theorem absent_date_cell_raises :
  _parse_transaction_row [None; Some (lit "AMAZON PAY"); Some (lit "1,234.56")]
  = Raise AttributeError
  /\ parse_statement
       [mkPage (lit "statement")
          [[cells ["Date"%string; "Transaction Details"%string; "Amount"%string];
            cells ["08/10/2025"%string; "AMAZON PAY"%string; "1,234.56"%string];
            [None; Some (lit "AMAZON PAY"); Some (lit "1,234.56")]]]]
     = Raise ParsingError.
Proof. split; reflexivity. Qed.

(** ** Normalizing a normalized amount *)

Lemma strip_zeros_idem (s : str) : strip_zeros (strip_zeros s) = strip_zeros s.
Proof.
  induction s as [|c s IH]; [reflexivity|].
  cbn [strip_zeros]. destruct (Ascii.eqb c zero_digit) eqn:Hc; [exact IH|].
  cbn [strip_zeros]. now rewrite Hc.
Qed.

Lemma strip_zeros_digits (s : str) :
  forallb isdigit s = true -> forallb isdigit (strip_zeros s) = true.
Proof.
  induction s as [|c s IH]; [reflexivity|].
  cbn [strip_zeros forallb]. intros H. apply andb_true_iff in H as [H1 H2].
  destruct (Ascii.eqb c zero_digit); [now apply IH|].
  cbn [forallb]. now rewrite H1, H2.
Qed.

Lemma strip_zeros_leading (n : nat) (s : str) :
  strip_zeros (repeat zero_digit n ++ s) = strip_zeros s.
Proof. induction n; [reflexivity|]. exact IHn. Qed.

Lemma before_first_app (x : ascii) (a b : str) :
  forallb (fun c => negb (Ascii.eqb c x)) a = true ->
  before_first x (a ++ x :: b) = a.
Proof.
  induction a as [|c a IH]; cbn [before_first app forallb]; intros H.
  - now rewrite Ascii.eqb_refl.
  - apply andb_true_iff in H as [H1 H2]. apply negb_true_iff in H1.
    rewrite H1. now rewrite IH.
Qed.

Lemma digit_not_dot (c : ascii) :
  isdigit c = true -> negb (Ascii.eqb c "."%char) = true.
Proof. char_cases c. Qed.

Lemma digit_numeric (c : ascii) : isdigit c = true -> numeric c = true.
Proof. unfold numeric. now intros ->. Qed.

Lemma of_str_int (i : str) :
  forallb isdigit i = true -> i <> [] ->
  of_str i = Some (mkDec false (strip_zeros i) 0).
Proof.
  intros Hd Hne. unfold of_str.
  rewrite before_first_id by (revert Hd; apply forallb_impl, digit_not_dot).
  rewrite skipn_all. cbn [tl]. rewrite app_nil_r, Hd.
  destruct i; [contradiction|]. reflexivity.
Qed.

Lemma of_str_int_frac (i f : str) :
  forallb isdigit i = true -> forallb isdigit f = true -> i <> [] ->
  of_str (i ++ "."%char :: f) = Some (mkDec false (strip_zeros (i ++ f)) (- len f)).
Proof.
  intros Hi Hf Hne. unfold of_str.
  rewrite before_first_app by (revert Hi; apply forallb_impl, digit_not_dot).
  rewrite skipn_app, skipn_all, Nat.sub_diag. cbn [skipn app tl].
  rewrite Hi, Hf. destruct i; [contradiction|]. reflexivity.
Qed.

Lemma of_str_canonical (s : str) (d : Decimal) : of_str s = Some d -> canonical d.
Proof.
  unfold of_str.
  destruct (forallb isdigit (before_first "."%char s)) eqn:Hi; [|discriminate].
  destruct (forallb isdigit (tl (skipn (List.length (before_first "."%char s)) s)))
    eqn:Hf; [|discriminate].
  destruct (negb _); [|discriminate].
  intros [= <-]. unfold canonical. cbn [d_int d_exp]. repeat split.
  - apply strip_zeros_digits. rewrite forallb_app. now rewrite Hi, Hf.
  - apply strip_zeros_idem.
  - unfold len. lia.
Qed.

Lemma _fix_zero_canonical (d v : Decimal) :
  is_zero d = true -> canonical d -> _fix d = Return v -> canonical v.
Proof.
  unfold _fix. intros Hz (Hd & Hs & He). rewrite Hz.
  destruct (_ =? _); intros [= <-].
  - now repeat split.
  - unfold canonical. cbn [d_int d_exp]. repeat split.
    unfold Etiny, Emin, Emax, prec. lia.
Qed.

Lemma clean_amount_canonical (text : str) (v : Decimal) :
  _clean_amount (Some text) = Return (Some v) -> d_sign v = false -> canonical v.
Proof.
  rewrite clean_amount_eq.
  destruct (of_str (keep_numeric text)) as [amount|] eqn:Hp; [|discriminate].
  pose proof (of_str_sign _ _ Hp) as Hs.
  pose proof (of_str_canonical _ _ Hp) as Hc.
  destruct (is_credit text).
  - destruct (neg amount) as [a|e] eqn:Hn; [|discriminate].
    cbn [bind]. intros [= ->] Hv.
    destruct (neg_of_unsigned _ _ Hs Hn) as [(Hz & _) | (_ & Hv')].
    + unfold neg in Hn. rewrite Hz in Hn.
      apply (_fix_zero_canonical (copy_abs amount)); [exact Hz | exact Hc | exact Hn].
    + congruence.
  - now intros [= <-].
Qed.

Lemma numeric_no_c (c : ascii) :
  numeric c = true -> Ascii.eqb "c"%char (lower_char c) = false.
Proof. char_cases c. Qed.

Lemma numeric_no_plus (c : ascii) : numeric c = true -> Ascii.eqb "+"%char c = false.
Proof. char_cases c. Qed.

Lemma numeric_no_cr (s : str) :
  forallb numeric s = true -> contains (lit "cr") (lower s) = false.
Proof.
  induction s as [|c s IH]; [reflexivity|].
  cbn [forallb]. intros H. apply andb_true_iff in H as [H1 H2].
  cbn [lower map contains]. fold (lower s). rewrite (IH H2).
  cbn [lit list_ascii_of_string startswith]. now rewrite (numeric_no_c c H1).
Qed.

(** On a text of digits and dots the normalizer is the decimal constructor. *)
Lemma clean_amount_numeric (s : str) :
  forallb numeric s = true -> _clean_amount (Some s) = Return (of_str s).
Proof.
  intros H. rewrite clean_amount_eq. unfold keep_numeric.
  rewrite (forallb_filter_id _ _ H).
  assert (Hc : is_credit s = false).
  { unfold is_credit.
    rewrite strip_id by (revert H; apply forallb_impl, numeric_not_space).
    unfold remove_char.
    rewrite forallb_filter_id by (revert H; apply forallb_impl, numeric_not_comma).
    unfold is_credit_text. rewrite (numeric_no_cr s H).
    destruct s as [|c s]; [reflexivity|].
    cbn [forallb] in H. apply andb_true_iff in H as [H1 _].
    cbn [lit list_ascii_of_string startswith orb]. now rewrite (numeric_no_plus c H1). }
  rewrite Hc. now destruct (of_str s).
Qed.

Lemma canonical_nonempty (d : Decimal) : canonical d -> d_int d <> [].
Proof. intros (_ & Hs & _) E. rewrite E in Hs. discriminate. Qed.

Lemma forallb_firstn {A} (f : A -> bool) (n : nat) (l : list A) :
  forallb f l = true -> forallb f (firstn n l) = true.
Proof.
  revert n; induction l as [|x l IH]; intros [|n]; cbn; try easy.
  intros H. apply andb_true_iff in H as [-> H2]. now apply IH.
Qed.

Lemma forallb_skipn {A} (f : A -> bool) (n : nat) (l : list A) :
  forallb f l = true -> forallb f (skipn n l) = true.
Proof.
  revert n; induction l as [|x l IH]; intros [|n]; cbn; try easy.
  intros H. apply andb_true_iff in H as [_ H2]. now apply IH.
Qed.

(** The text [str(d)] of a canonical, unsigned decimal in plain notation
    consists of digits and at most one dot, and the constructor reads [d]
    back from it. *)
Lemma to_str_plain_roundtrip (d : Decimal) :
  canonical d -> d_sign d = false -> plain_notation d ->
  forallb numeric (to_str d) = true /\ of_str (to_str d) = Some d.
Proof.
  intros Hcan Hsign (He & Hleft).
  pose proof (canonical_nonempty d Hcan) as Hne.
  destruct Hcan as (Hdig & Hstrip & _).
  destruct d as [sg i e]. cbn [d_sign d_int d_exp] in *. subst sg.
  assert (Hnum : forallb numeric i = true)
    by (revert Hdig; apply forallb_impl, digit_numeric).
  assert (Hlen : 0 < len i).
  { unfold len. destruct i; [contradiction|]. cbn [List.length]. lia. }
  unfold to_str. cbn [d_sign d_int d_exp].
  assert (Hdp : ((e <=? 0) && (e + len i >? -6)) = true).
  { apply andb_true_iff. split; [now apply Z.leb_le|].
    rewrite Z.gtb_ltb. apply Z.ltb_lt. lia. }
  rewrite Hdp, Z.eqb_refl.
  destruct (e + len i <=? 0) eqn:Hc1.
  - (* 0.000ddd *)
    apply Z.leb_le in Hc1. cbn [app]. rewrite app_nil_r.
    change (zero_digit :: "."%char :: ?x) with ([zero_digit] ++ "."%char :: x).
    split.
    + cbn [app forallb]. rewrite forallb_app, Hnum.
      now rewrite (forallb_repeat numeric zero_digit).
    + rewrite of_str_int_frac; [ | reflexivity | | discriminate].
      * cbn [app]. change (Ascii.eqb zero_digit zero_digit) with true.
        cbn [strip_zeros]. change (Ascii.eqb zero_digit zero_digit) with true.
        cbv iota. rewrite strip_zeros_leading, Hstrip. f_equal. f_equal.
        unfold len in *. rewrite length_app, repeat_length. lia.
      * rewrite forallb_app, Hdig. now rewrite (forallb_repeat isdigit zero_digit).
  - apply Z.leb_gt in Hc1.
    destruct (e + len i >=? len i) eqn:Hc2.
    + (* ddd *)
      rewrite Z.geb_leb in Hc2. apply Z.leb_le in Hc2.
      assert (e = 0) by lia. subst e. cbn [Z.add].
      rewrite Z.sub_diag. cbn [Z.to_nat repeat app]. rewrite !app_nil_r.
      split; [exact Hnum|].
      rewrite of_str_int by assumption. now rewrite Hstrip.
    + (* dd.ddd *)
      rewrite Z.geb_leb in Hc2. apply Z.leb_gt in Hc2.
      cbn [app]. rewrite app_nil_r.
      set (k := Z.to_nat (e + len i)).
      assert (Hk : (0 < k < List.length i)%nat) by (unfold len in *; lia).
      split.
      * rewrite forallb_app. cbn [forallb].
        rewrite (forallb_firstn numeric k i Hnum), (forallb_skipn numeric k i Hnum).
        reflexivity.
      * rewrite of_str_int_frac.
        -- rewrite firstn_skipn, Hstrip. f_equal. f_equal.
           unfold len in *. rewrite length_skipn. lia.
        -- now apply forallb_firstn.
        -- now apply forallb_skipn.
        -- intros E. apply (f_equal (@List.length ascii)) in E.
           rewrite length_firstn in E. cbn [List.length] in E. lia.
Qed.

(** C2, as stated, fails: "+500" normalizes to -500, whose string form "-500"
    normalizes to 500, the minus sign being dropped with the other
    characters that are neither digit nor dot. *)
Lemma clean_amount_idempotent_counterexample :
  _clean_amount (Some (lit "+500")) = Return (Some (mkDec true (lit "500") 0))
  /\ to_str (mkDec true (lit "500") 0) = lit "-500"
  /\ _clean_amount (Some (lit "-500")) = Return (Some (mkDec false (lit "500") 0)).
Proof. repeat split. Qed.

(** C2, amended.  When [_clean_amount] returns a value [v] that is not
    negative and whose string form is in plain notation (no exponent part),
    normalizing the string form of [v] returns [v] again. *)
Theorem clean_amount_idempotent (text : str) (v : Decimal) :
  _clean_amount (Some text) = Return (Some v) ->
  d_sign v = false ->
  plain_notation v ->
  _clean_amount (Some (to_str v)) = Return (Some v).
Proof.
  intros Hclean Hsign Hplain.
  pose proof (clean_amount_canonical text v Hclean Hsign) as Hcan.
  destruct (to_str_plain_roundtrip v Hcan Hsign Hplain) as [Hnum Hback].
  now rewrite clean_amount_numeric, Hback.
Qed.

Lemma clean_amount_idempotent_witness :
  _clean_amount (Some (to_str (mkDec false (lit "123456") (-2))))
  = Return (Some (mkDec false (lit "123456") (-2))).
Proof.
  apply (clean_amount_idempotent (lit "1,234.56")).
  - reflexivity.
  - reflexivity.
  - split; [discriminate | reflexivity].
Defined.

(** ** The table classifier *)

Lemma contains_nil (w : str) : w <> [] -> contains w [] = false.
Proof. destruct w; [contradiction | reflexivity]. Qed.

Lemma startswith_nil (w : str) : w <> [] -> startswith w [] = false.
Proof. destruct w; [contradiction | reflexivity]. Qed.

Section Words.
(** A non-empty word without the separator character. *)
Variable w : str.
Variable sep : ascii.
Hypothesis w_nonempty : w <> [].
Hypothesis w_no_sep : forallb (fun a => negb (Ascii.eqb a sep)) w = true.

Lemma startswith_app_sep (x y : str) :
  startswith w (x ++ sep :: y) = startswith w x.
Proof.
  clear w_nonempty. revert w w_no_sep.
  induction x as [|a x IH]; intros [|h t] Hw; try reflexivity.
  - cbn [forallb] in Hw. apply andb_true_iff in Hw as [Hh _].
    apply negb_true_iff in Hh. cbn. now rewrite Hh.
  - cbn [forallb] in Hw. apply andb_true_iff in Hw as [_ Ht].
    cbn [app startswith]. now rewrite (IH t Ht).
Qed.

Lemma contains_app_sep (x y : str) :
  contains w (x ++ sep :: y) = contains w x || contains w y.
Proof.
  induction x as [|a x IH].
  - rewrite (contains_nil w w_nonempty). cbn [app orb].
    change (contains w (sep :: y)) with (startswith w (sep :: y) || contains w y).
    pose proof (startswith_app_sep [] y) as E. cbn [app] in E. rewrite E.
    now rewrite (startswith_nil w w_nonempty).
  - change (contains w ((a :: x) ++ sep :: y))
      with (startswith w ((a :: x) ++ sep :: y) || contains w (x ++ sep :: y)).
    rewrite IH, (startswith_app_sep (a :: x) y).
    change (contains w (a :: x)) with (startswith w (a :: x) || contains w x).
    now rewrite orb_assoc.
Qed.

Hypothesis sep_lower : lower_char sep = sep.

Lemma contains_lower_join (parts : list str) :
  contains w (lower (join [sep] parts))
  = existsb (fun p => contains w (lower p)) parts.
Proof.
  induction parts as [|p [|q rest] IH].
  - apply (contains_nil w w_nonempty).
  - cbn [join existsb]. now rewrite orb_false_r.
  - change (join [sep] (p :: q :: rest)) with (p ++ sep :: join [sep] (q :: rest)).
    unfold lower in *. rewrite map_app. cbn [map]. rewrite sep_lower.
    rewrite contains_app_sep, IH. reflexivity.
Qed.

End Words.

Lemma existsb_truthy (w : str) (header : RawRow) :
  w <> [] ->
  existsb (fun p => contains w (lower p)) (truthy_cells header) = has_word w header.
Proof.
  intros Hw.
  induction header as [|[[|c s]|] rest IH]; cbn [truthy_cells has_word existsb].
  - reflexivity.
  - cbn [lower map]. rewrite (contains_nil w Hw). exact IH.
  - unfold has_word in IH. rewrite IH. reflexivity.
  - exact IH.
Qed.

Lemma existsb_present (w : str) (header : RawRow) :
  existsb (fun p => contains w (lower p)) (present_cells header) = has_word w header.
Proof.
  induction header as [|[s|] rest IH]; cbn [present_cells has_word existsb].
  - reflexivity.
  - unfold has_word in IH. rewrite IH. reflexivity.
  - exact IH.
Qed.

Lemma has_word_perm (w : str) (h h' : RawRow) :
  Permutation h h' -> has_word w h = has_word w h'.
Proof.
  unfold has_word. induction 1; cbn [existsb].
  - reflexivity.
  - now rewrite IHPermutation.
  - rewrite !orb_assoc. f_equal. apply orb_comm.
  - congruence.
Qed.

(** The classifier, cell by cell. *)
Lemma is_transaction_table_words (header : RawRow) :
  _is_transaction_table header
  = has_word (lit "date") header
    && has_word (lit "transaction") header
    && has_word (lit "amount") header.
Proof.
  destruct header as [|c rest]; [reflexivity|].
  unfold _is_transaction_table.
  change (lit " ") with [" "%char].
  rewrite !contains_lower_join by (reflexivity || discriminate).
  rewrite !existsb_truthy by discriminate. reflexivity.
Qed.

(** C6.  The classifier answers true exactly when the lower-cased text of the
    non-absent header cells, joined by a space, contains "date", "transaction"
    and "amount"; the answer does not depend on the order of the cells. *)
Theorem table_classifier_iff (header header' : RawRow) :
  (_is_transaction_table header = true <->
   contains (lit "date") (header_text_spec header) = true
   /\ contains (lit "transaction") (header_text_spec header) = true
   /\ contains (lit "amount") (header_text_spec header) = true)
  /\ (Permutation header header' ->
      _is_transaction_table header' = _is_transaction_table header).
Proof.
  split.
  - rewrite is_transaction_table_words. unfold header_text_spec.
    change (lit " ") with [" "%char].
    rewrite !contains_lower_join by (reflexivity || discriminate).
    rewrite !existsb_present.
    rewrite !andb_true_iff. tauto.
  - intros Hp. rewrite !is_transaction_table_words.
    now rewrite !(has_word_perm _ _ _ Hp).
Qed.

Lemma table_classifier_iff_witness :
  _is_transaction_table (cells ["Amount"%string; "Transaction Details"%string; "Date"%string])
  = _is_transaction_table (cells ["Date"%string; "Transaction Details"%string; "Amount"%string]).
Proof.
  apply (proj2 (table_classifier_iff
                  (cells ["Date"%string; "Transaction Details"%string; "Amount"%string])
                  (cells ["Amount"%string; "Transaction Details"%string; "Date"%string]))).
  apply Permutation_rev.
Defined.

(** ** The credit-limit rule *)



(** ** Rejection of rows *)

Lemma date_prefix_matches (s : str) :
  starts_with_date s = true -> matches TX_DATE_RE s = true.
Proof.
  unfold matches, match_, starts_with_date. intros H.
  do 10 (destruct s as [|? s]; [discriminate H|]).
  cbn -[isdigit Ascii.eqb] in H |- *.
  repeat match type of H with
         | _ && _ = true => apply andb_true_iff in H as [H ?]
         end.
  repeat match goal with
         | E : Ascii.eqb _ _ = true |- _ => apply Ascii.eqb_eq in E; subst
         end.
  repeat match goal with
         | E : isdigit _ = true |- _ => rewrite E; clear E
         end.
  reflexivity.
Qed.

Lemma matches_date_eq (s : str) : matches TX_DATE_RE s = starts_with_date s.
Proof.
  destruct (matches TX_DATE_RE s) eqn:Hm, (starts_with_date s) eqn:Hs; try reflexivity.
  - apply matches_date_prefix in Hm. congruence.
  - apply date_prefix_matches in Hs. congruence.
Qed.

(** C4, as stated, fails: the date cell "08/10/2025 11:58" is not of the
    strict form, the time being separated by a space and not by "|", and the
    row is accepted all the same. *)
Lemma row_rejected_counterexample :
  strict_date (date_cell (lit "08/10/2025 11:58")) = false
  /\ _parse_transaction_row
       (cells ["08/10/2025 11:58"%string; "AMAZON PAY"%string; "100"%string])
     = Return (Some (mkTx (lit "08/10/2025 11:58") (lit "AMAZON PAY")
                          (mkDec false (lit "100") 0))).
Proof. split; reflexivity. Qed.

(** C4, amended.  Take any row whose first cell is present unless it has
    fewer than 3 cells, and for whose last cell the amount normalizer does
    not raise.  The row normalizer rejects it, returning [None], exactly
    when the row has fewer than 3 cells, or its date cell, with any "|"
    suffix dropped and trimmed, does not begin with a strict date, or its
    last cell normalizes to [None], or its merchant text is empty or starts
    with "total" whatever the case; and when it does not reject the row it
    returns a transaction. *)
Theorem row_rejected_iff (row : RawRow) :
  first_cell_present row ->
  amount_returns row ->
  (rejects row <->
   len row < 3 \/ date_fails row \/ amount_absent row \/ merchant_fails row)
  /\ (rejects row \/ exists tx, _parse_transaction_row row = Return (Some tx)).
Proof.
  unfold first_cell_present, amount_returns, rejects, date_fails,
    amount_absent, merchant_fails, _parse_transaction_row.
  intros Hfirst Hamount.
  destruct (len row <? 3) eqn:Hlen.
  { apply Z.ltb_lt in Hlen. split; [split; [now left | reflexivity] | now left]. }
  apply Z.ltb_ge in Hlen.
  destruct Hfirst as [Hshort | [first Hfirst]]; [lia|].
  rewrite Hfirst. fold (date_cell first). rewrite matches_date_eq.
  destruct (starts_with_date (date_cell first)) eqn:Hdate; cbn [negb].
  2:{ split; [split; [|reflexivity] | now left].
      intros _. right. left. now exists first. }
  destruct (_clean_amount (last row None)) as [[a|]|e] eqn:Ha; cbn [bind].
  3:{ now destruct (Hamount e). }
  2:{ split; [split; [|reflexivity] | now left].
      intros _. right. right. now left. }
  destruct (Str.eqb (merchant_of row) []) eqn:He; cbn [orb].
  { split; [split; [|reflexivity] | now left].
    intros _. right. right. right. left. now apply str_eqb_eq. }
  destruct (startswith (lit "total") (lower (merchant_of row))) eqn:Htot.
  { split; [split; [|reflexivity] | now left].
    intros _. right. right. right. now right. }
  split; [split | right; now eexists].
  - discriminate.
  - intros [H | [(f & Hf & Hd) | [H | [H | H]]]].
    + lia.
    + congruence.
    + discriminate H.
    + apply (proj2 (str_eqb_eq _ _)) in H. congruence.
    + congruence.
Qed.

Lemma row_rejected_iff_witness :
  let row := cells ["08/10/2025"%string; "TOTAL DUE"%string; "100"%string] in
  (rejects row <->
   len row < 3 \/ date_fails row \/ amount_absent row \/ merchant_fails row)
  /\ (rejects row \/ exists tx, _parse_transaction_row row = Return (Some tx)).
Proof.
  apply (row_rejected_iff
           (cells ["08/10/2025"%string; "TOTAL DUE"%string; "100"%string])).
  - right. now eexists.
  - intros e He. vm_compute in He. discriminate He.
Defined.

(** ** The matcher accepts what the pattern describes *)

Lemma mstate_eta (st : mstate) : mkSt (at_start st) (rest st) (group1 st) = st.
Proof. now destruct st. Qed.

Lemma star_sound {A} (p : ascii -> bool) (b : bool) (s : str) (g : option str)
    (k : mstate -> option A) (x : A) :
  star p b s g k = Some x ->
  exists a s', s = a ++ s' /\ forallb p a = true
               /\ k (mkSt (match a with [] => b | _ => false end) s' g) = Some x.
Proof.
  revert b. induction s as [|c s IH]; intros b; cbn [star].
  - intros H. now exists [], [].
  - destruct (p c) eqn:Hc.
    + destruct (star p false s g k) as [y|] eqn:Hs.
      * intros [= ->]. destruct (IH false Hs) as (a & s' & -> & Ha & Hk).
        exists (c :: a), s'. cbn [app forallb]. rewrite Hc, Ha.
        repeat split. now destruct a.
      * intros H. now exists [], (c :: s).
    + intros H. now exists [], (c :: s).
Qed.

Lemma star_complete {A} (p : ascii -> bool) (a s' : str) (g : option str)
    (k : mstate -> option A) :
  forallb p a = true ->
  forall b, k (mkSt (match a with [] => b | _ => false end) s' g) <> None ->
  star p b (a ++ s') g k <> None.
Proof.
  induction a as [|c a IH]; cbn [forallb app]; intros Ha b Hk.
  - destruct s' as [|c s']; cbn [star]; [exact Hk|].
    destruct (p c); [|exact Hk].
    now destruct (star p false s' g k).
  - apply andb_true_iff in Ha as [Hc Ha]. cbn [star]. rewrite Hc.
    assert (H : star p false (a ++ s') g k <> None).
    { apply IH; [exact Ha|]. now destruct a. }
    now destruct (star p false (a ++ s') g k).
Qed.

Lemma run_sound {A} (r : regex) :
  forall (st : mstate) (k : mstate -> option A) (x : A),
    run r st k = Some x -> exists st', Matches r st st' /\ k st' = Some x.
Proof.
  induction r as [|p|r1 IH1 r2 IH2|r1 IH1 r2 IH2|p|r IH|r IH| |];
    intros st k x; cbn [run].
  - intros H. exists st. split; [constructor | exact H].
  - destruct (rest st) as [|c s] eqn:Hr; [discriminate|].
    destruct (p c) eqn:Hc; [|discriminate].
    intros H. eexists. split; [now apply (M_chr p st c s) | exact H].
  - intros H. apply IH1 in H as (st1 & H1 & H).
    apply IH2 in H as (st2 & H2 & H).
    exists st2. split; [now apply (M_cat r1 r2 st st1) | exact H].
  - destruct (run r1 st k) as [y|] eqn:H1.
    + intros [= ->]. apply IH1 in H1 as (st' & H1 & H).
      exists st'. split; [now apply M_alt_l | exact H].
    + intros H. apply IH2 in H as (st' & H2 & H).
      exists st'. split; [now apply M_alt_r | exact H].
  - intros H. apply star_sound in H as (a & s' & Hs & Ha & H).
    eexists. split; [apply (M_star p st a s' Hs Ha) | exact H].
  - destruct (run r st k) as [y|] eqn:H1.
    + intros [= ->]. apply IH in H1 as (st' & H1 & H).
      exists st'. split; [now apply M_opt_some | exact H].
    + intros H. exists st. split; [apply M_opt_none | exact H].
  - intros H. apply IH in H as (st' & H1 & H).
    eexists. split; [apply (M_group r st st' H1) | exact H].
  - destruct (at_start st) eqn:Hb; [|discriminate].
    intros H. exists st. split; [now apply M_bos | exact H].
  - destruct (rest st) as [|c [|c' s]] eqn:Hr; [| |discriminate].
    + intros H. exists st. split; [apply M_eos; now left | exact H].
    + destruct (Ascii.eqb c newline) eqn:Hc; [|discriminate].
      apply Ascii.eqb_eq in Hc. subst c.
      intros H. exists st. split; [apply M_eos; now right | exact H].
Qed.

Lemma run_complete (r : regex) (st st' : mstate) :
  Matches r st st' ->
  forall A (k : mstate -> option A), k st' <> None -> run r st k <> None.
Proof.
  induction 1 as [st|p st c s Hr Hc|r1 r2 st st1 st2 _ IH1 _ IH2
                  |r1 r2 st st' _ IH|r1 r2 st st' _ IH|p st a s Hr Ha
                  |r st st' _ IH|r st|r st st' _ IH|st Hb|st Hr];
    intros A k Hk; cbn [run].
  - exact Hk.
  - now rewrite Hr, Hc.
  - apply IH1. now apply IH2.
  - specialize (IH A k Hk). now destruct (run r1 st k).
  - specialize (IH A k Hk). now destruct (run r1 st k).
  - rewrite Hr. now apply star_complete.
  - specialize (IH A k Hk). now destruct (run r st k).
  - now destruct (run r st k).
  - now apply IH.
  - now rewrite Hb.
  - destruct Hr as [-> | ->]; [exact Hk|]. now rewrite Ascii.eqb_refl.
Qed.

(** [pattern.match(s)] succeeds exactly when the pattern matches some prefix
    of [s]. *)
Lemma matches_iff (r : regex) (s : str) :
  matches r s = true <-> exists st', Matches r (mkSt true s None) st'.
Proof.
  unfold matches, match_. split.
  - destruct (run r (mkSt true s None) Some) as [x|] eqn:H; [|discriminate].
    intros _. apply run_sound in H as (st' & H & _). now exists st'.
  - intros (st' & H).
    pose proof (run_complete r _ _ H _ Some) as Hc.
    destruct (run r (mkSt true s None) Some); [reflexivity|].
    now contradiction Hc.
Qed.

(** ** The junk columns and the merchant *)

Ltac inv H := inversion H; subst; clear H.
Ltac inv_matches :=
  repeat match goal with
         | H : Matches (Cat _ _) _ _ |- _ => inv H
         | H : Matches Eps _ _ |- _ => inv H
         | H : Matches (Chr _) _ _ |- _ => inv H
         | H : Matches (Star _) _ _ |- _ => inv H
         | H : Matches Bos _ _ |- _ => inv H
         | H : Matches Eos _ _ |- _ => inv H
         | H : Matches (Group _) _ _ |- _ => inv H
         | H : Matches (Alt _ _) _ _ |- _ => inv H
         end;
  cbn [rest at_start group1] in *.
Ltac unfold_pattern H :=
  cbv [POINTS_DELTA_RE POINTS_RE FOREIGN_AMOUNT_RE cats plus fold_right
       ilits lits chr ichr map lit list_ascii_of_string] in H.

Lemma rstrip_idem (s : str) : rstrip (rstrip s) = rstrip s.
Proof.
  induction s as [|c s IH]; [reflexivity|].
  cbn [rstrip]. destruct (rstrip s) as [|x r] eqn:Hr.
  - destruct (isspace c) eqn:Hc; [reflexivity|]. cbn [rstrip]. now rewrite Hc.
  - change (rstrip (c :: x :: r)) with
      (match rstrip (x :: r) with [] => if isspace c then [] else [c] | r' => c :: r' end).
    now rewrite IH.
Qed.

Lemma rstrip_fixed_last (x : str) (c : ascii) : rstrip (x ++ [c]) = x ++ [c] -> isspace c = false.
Proof.
  induction x as [|a x IH]; cbn [app rstrip].
  - destruct (isspace c); [discriminate | reflexivity].
  - destruct (rstrip (x ++ [c])) as [|y r] eqn:Hr.
    + destruct (isspace a); intros H; apply (f_equal (@List.length _)) in H;
        cbn [List.length] in H; rewrite length_app in H; cbn [List.length] in H; lia.
    + intros [= H]. apply IH. exact H.
Qed.

Lemma no_final_newline (t x : str) : rstrip t = t -> t <> x ++ [newline].
Proof.
  intros Ht E. subst t. now apply rstrip_fixed_last in Ht.
Qed.


Lemma one_of_sign (c : ascii) : one_of "+-" c = true <-> c = "+"%char \/ c = "-"%char.
Proof.
  unfold one_of. cbn [lit list_ascii_of_string existsb].
  rewrite orb_false_r, orb_true_iff, !Ascii.eqb_eq. tauto.
Qed.

Lemma points_delta_spec (t : str) :
  rstrip t = t -> (matches POINTS_DELTA_RE t = true <-> signed_integer t).
Proof.
  intros Ht. rewrite matches_iff. split.
  - intros (st' & H). unfold_pattern H. inv_matches. subst.
    exists c0, (c :: a). repeat split.
    + destruct H2 as [-> | ->]; [now rewrite app_nil_r|].
      exfalso. now apply (no_final_newline _ (c0 :: c :: a) Ht).
    + now apply one_of_sign.
    + discriminate.
    + cbn [forallb]. now rewrite H3, H7.
  - intros (sg & ds & -> & Hsg & Hne & Hds).
    destruct ds as [|d ds]; [contradiction|].
    cbn [forallb] in Hds. apply andb_true_iff in Hds as [Hd Hds].
    eexists. cbv [POINTS_DELTA_RE cats plus fold_right].
    eapply M_cat; [now apply M_bos|].
    eapply M_cat; [eapply M_chr; [reflexivity | now apply one_of_sign]|].
    eapply M_cat.
    + eapply M_cat; [eapply M_chr; [reflexivity | exact Hd]|].
      apply (M_star isdigit _ ds []); [cbn [rest]; now rewrite app_nil_r | exact Hds].
    + eapply M_cat; [apply M_eos; now left | apply M_eps].
Qed.


Ltac list_eq := repeat (cbn [app]; rewrite <- app_assoc); cbn [app]; reflexivity.

Ltac eqb_to_eq :=
  repeat match goal with
         | E : Ascii.eqb _ _ = true |- _ => apply Ascii.eqb_eq in E
         end.

Ltac prefix_of t :=
  match t with
  | [newline] => constr:(@nil ascii)
  | ?c :: ?r => let p := prefix_of r in constr:(c :: p)
  | ?a ++ ?r => let p := prefix_of r in constr:(a ++ p)
  end.

(** The text ends where the pattern's [$] stands. *)
Ltac at_end Ht :=
  match goal with
  | H : ?s = [] \/ ?s = [newline] |- _ =>
      destruct H as [-> | ->];
      [ | exfalso;
          match type of Ht with
          | rstrip ?t = _ =>
              let x := prefix_of t in
              apply (no_final_newline t x Ht); list_eq
          end ]
  end.

Lemma points_spec (t : str) :
  rstrip t = t -> (matches POINTS_RE t = true <-> integer_pts t).
Proof.
  intros Ht. rewrite matches_iff. split.
  - intros (st' & H). unfold_pattern H. inv_matches. subst. eqb_to_eq.
    at_end Ht.
    match goal with
    | |- integer_pts (?d :: ?ds ++ ?w :: ?ws ++ ?u) =>
        exists (d :: ds), (w :: ws), u
    end.
    repeat split; try discriminate.
    + cbn [forallb]. apply andb_true_iff. now split.
    + cbn [forallb]. apply andb_true_iff. now split.
    + cbn [lower map]. cbv [lit list_ascii_of_string]. congruence.
  - intros (ds & ws & u & -> & (Hds0 & Hds) & (Hws0 & Hws) & Hu).
    destruct ds as [|d ds]; [contradiction|].
    destruct ws as [|w ws]; [contradiction|].
    destruct u as [|u1 [|u2 [|u3 [|u4 u]]]]; try discriminate Hu.
    cbv [lit list_ascii_of_string] in Hu. cbn [lower map] in Hu.
    injection Hu as H1 H2 H3.
    cbn [forallb] in Hds, Hws.
    apply andb_true_iff in Hds as [Hd Hds]. apply andb_true_iff in Hws as [Hw Hws].
    eexists. cbv [POINTS_RE cats plus fold_right ilits ichr map lit list_ascii_of_string].
    cbn [app].
    eapply M_cat; [now apply M_bos|].
    eapply M_cat.
    { eapply M_cat; [eapply M_chr; [reflexivity | exact Hd]|].
      now apply (M_star isdigit _ ds (w :: ws ++ [u1; u2; u3])). }
    eapply M_cat.
    { eapply M_cat; [eapply M_chr; [reflexivity | exact Hw]|].
      now apply (M_star isspace _ ws [u1; u2; u3]). }
    eapply M_cat.
    { eapply M_cat; [eapply M_chr; [reflexivity | now rewrite H1]|].
      eapply M_cat; [eapply M_chr; [reflexivity | now rewrite H2]|].
      eapply M_cat; [eapply M_chr; [reflexivity | now rewrite H3]|].
      apply M_eps. }
    eapply M_cat; [apply M_eos; now left | apply M_eps].
Qed.

Lemma foreign_amount_spec (t : str) :
  rstrip t = t -> (matches FOREIGN_AMOUNT_RE t = true <-> currency_amount t).
Proof.
  intros Ht. rewrite matches_iff. split.
  - intros (st' & H). unfold_pattern H. inv_matches; subst; eqb_to_eq; at_end Ht.
    all: match goal with
         | |- currency_amount (?a :: ?b :: ?c :: ?w :: ?ws ++ ?n :: ?ns ++ []) =>
             exists [a; b; c], (w :: ws), (n :: ns ++ [])
         end.
    all: repeat split; try discriminate; try reflexivity.
    all: try (cbn [forallb]; rewrite ?app_nil_r; apply andb_true_iff; now split).
    all: cbn [lower map]; cbv [lit list_ascii_of_string].
    + left. congruence.
    + right. left. congruence.
    + right. right. congruence.
  - intros (cur & ws & num & -> & Hcur & (Hws0 & Hws) & (Hn0 & Hn)).
    destruct ws as [|w ws]; [contradiction|].
    destruct num as [|n num]; [contradiction|].
    cbn [forallb] in Hws, Hn.
    apply andb_true_iff in Hws as [Hw Hws]. apply andb_true_iff in Hn as [Hn1 Hn].
    cbv [lit list_ascii_of_string] in Hcur.
    destruct cur as [|x [|y [|z [|z' cur]]]];
      try (exfalso; destruct Hcur as [H | [H | H]]; discriminate H).
    cbn [lower map] in Hcur.
    eexists. cbv [FOREIGN_AMOUNT_RE cats plus fold_right ilits ichr map lit
                  list_ascii_of_string].
    cbn [app].
    eapply M_cat; [now apply M_bos|].
    eapply M_cat.
    { eapply M_group.
      destruct Hcur as [H | [H | H]]; injection H as H1 H2 H3;
        [ apply M_alt_l | apply M_alt_r, M_alt_l | apply M_alt_r, M_alt_r ].
      all: (eapply M_cat; [eapply M_chr; [reflexivity | now rewrite H1]|]);
           (eapply M_cat; [eapply M_chr; [reflexivity | now rewrite H2]|]);
           (eapply M_cat; [eapply M_chr; [reflexivity | now rewrite H3]|]);
           apply M_eps. }
    eapply M_cat.
    { eapply M_cat; [eapply M_chr; [reflexivity | exact Hw]|].
      now apply (M_star isspace _ ws (n :: num)). }
    eapply M_cat.
    { eapply M_cat; [eapply M_chr; [reflexivity | exact Hn1]|].
      apply (M_star (digit_or "."%char) _ num []); [cbn [rest]; now rewrite app_nil_r | exact Hn]. }
    eapply M_cat; [apply M_eos; now left | apply M_eps].
Qed.

(** On a trimmed cell the junk test of the merchant loop holds exactly for
    junk text. *)
Lemma is_junk_iff (t : str) : rstrip t = t -> (is_junk t = true <-> junk_text t).
Proof.
  intros Ht. unfold is_junk, junk_text.
  rewrite !orb_true_iff, !str_eqb_eq.
  rewrite (points_delta_spec t Ht), (points_spec t Ht), (foreign_amount_spec t Ht).
  tauto.
Qed.

Lemma rstrip_strip (p : str) : rstrip (strip p) = strip p.
Proof. apply rstrip_idem. Qed.

Lemma merchant_parts_pieces (cs : list cell) : merchant_pieces cs (merchant_parts cs).
Proof.
  induction cs as [|[[|c p]|] cs IH]; cbn [merchant_parts].
  - constructor.
  - now constructor.
  - destruct (is_junk (strip (c :: p))) eqn:Hj.
    + apply pieces_junk; [discriminate | | exact IH].
      now apply is_junk_iff; [apply rstrip_strip|].
    + apply pieces_kept; [discriminate | | exact IH].
      intros Hn. apply is_junk_iff in Hn; [congruence | apply rstrip_strip].
  - now constructor.
Qed.

Lemma merchant_pieces_fun (cs : list cell) (ps : list str) : merchant_pieces cs ps -> ps = merchant_parts cs.
Proof.
  induction 1 as [|cs ps _ IH|cs ps _ IH|p cs ps Hp Hj _ IH|p cs ps Hp Hj _ IH];
    cbn [merchant_parts]; try assumption; try reflexivity.
  - destruct p as [|c p]; [contradiction|].
    apply is_junk_iff in Hj; [|apply rstrip_strip]. now rewrite Hj.
  - destruct p as [|c p]; [contradiction|].
    destruct (is_junk (strip (c :: p))) eqn:E.
    + apply is_junk_iff in E; [contradiction | apply rstrip_strip].
    + now rewrite IH.
Qed.

(** C5, as stated, fails: a middle cell of whitespace only is empty after
    trimming and is still kept, as an empty piece, so the merchant of the row
    below has two spaces between "A" and "B". *)
Lemma merchant_blank_cell_counterexample :
  strip (lit " ") = []
  /\ _parse_transaction_row
       (cells ["08/10/2025"%string; "A"%string; " "%string; "B"%string; "100"%string])
     = Return (Some (mkTx (lit "08/10/2025") (lit "A  B") (mkDec false (lit "100") 0)))
  /\ merchant_spec
       (cells ["08/10/2025"%string; "A"%string; " "%string; "B"%string; "100"%string])
     = lit "A B".
Proof. repeat split. Qed.

(** C5, amended.  In an accepted row a middle cell gives no piece exactly when
    it is absent or the empty string, or when its trimmed text equals "EMI" or
    "EM" whatever the case, or is a sign followed by digits, or digits,
    whitespace and "pts" whatever the case, or USD, EUR or GBP whatever the
    case, whitespace and a run of digits and dots; every other middle cell
    gives its trimmed text, which is empty for a cell of whitespace only.  The
    merchant is the pieces joined by single spaces and trimmed. *)
Theorem merchant_of_accepted_row (row : RawRow) (tx : Transaction) :
  _parse_transaction_row row = Return (Some tx) ->
  (exists pieces, merchant_pieces (middle row) pieces)
  /\ forall pieces, merchant_pieces (middle row) pieces ->
       merchant tx = strip (join (lit " ") pieces).
Proof.
  intros H. apply parse_row_inv in H as (_ & _ & _ & _ & Hm & _).
  split.
  - exists (merchant_parts (middle row)). apply merchant_parts_pieces.
  - intros pieces Hp. apply merchant_pieces_fun in Hp. subst pieces. exact Hm.
Qed.

Lemma merchant_of_accepted_row_witness :
  exists pieces,
    merchant_pieces
      (middle (cells ["10/10/2025"%string; "STARBUCKS"%string; "EMI"%string;
                      "USD 4.50"%string; "450 pts"%string; "C500.00"%string]))
      pieces.
Proof.
  exact (proj1 (merchant_of_accepted_row
                  (cells ["10/10/2025"%string; "STARBUCKS"%string; "EMI"%string;
                          "USD 4.50"%string; "450 pts"%string; "C500.00"%string])
                  (mkTx (lit "10/10/2025") (lit "STARBUCKS")
                        (mkDec false (lit "50000") (-2)))
                  eq_refl)).
Defined.


(** * Further properties of the source *)

(** ** What every transaction satisfies *)

Lemma lstrip_head (s : str) :
  match lstrip s with [] => True | c :: _ => isspace c = false end.
Proof.
  induction s as [|c s IH]; cbn [lstrip]; [exact I|].
  destruct (isspace c) eqn:Hc; [exact IH | exact Hc].
Qed.

Lemma rstrip_head (s : str) :
  match s with [] => True | c :: _ => isspace c = false end ->
  match rstrip s with [] => True | c :: _ => isspace c = false end.
Proof.
  destruct s as [|c s]; [exact (fun H => H)|].
  intros Hc. cbn [rstrip]. destruct (rstrip s); [now rewrite Hc | exact Hc].
Qed.

Lemma lstrip_fixed (s : str) :
  match s with [] => True | c :: _ => isspace c = false end -> lstrip s = s.
Proof. destruct s as [|c s]; [reflexivity|]. cbn [lstrip]. now intros ->. Qed.

Lemma strip_idem (s : str) : strip (strip s) = strip s.
Proof.
  unfold strip.
  rewrite (lstrip_fixed (rstrip (lstrip s))).
  - apply rstrip_idem.
  - apply rstrip_head, lstrip_head.
Qed.

Lemma forallb_lstrip (f : ascii -> bool) (s : str) :
  forallb f s = true -> forallb f (lstrip s) = true.
Proof.
  induction s as [|c s IH]; [easy|]. cbn [lstrip].
  destruct (isspace c); [|easy].
  cbn [forallb]. intros H. apply andb_true_iff in H as [_ H]. now apply IH.
Qed.

Lemma forallb_rstrip (f : ascii -> bool) (s : str) :
  forallb f s = true -> forallb f (rstrip s) = true.
Proof.
  induction s as [|c s IH]; [easy|]. cbn [rstrip forallb].
  intros H. apply andb_true_iff in H as [Hc H]. specialize (IH H).
  destruct (rstrip s) as [|x r].
  - destruct (isspace c); [reflexivity|]. cbn [forallb]. now rewrite Hc.
  - cbn [forallb] in *. now rewrite Hc, IH.
Qed.

Lemma forallb_strip (f : ascii -> bool) (s : str) :
  forallb f s = true -> forallb f (strip s) = true.
Proof. intros H. unfold strip. now apply forallb_rstrip, forallb_lstrip. Qed.

Lemma before_first_excludes (x : ascii) (s : str) :
  forallb (fun c => negb (Ascii.eqb c x)) (before_first x s) = true.
Proof.
  induction s as [|c s IH]; [reflexivity|]. cbn [before_first].
  destruct (Ascii.eqb c x) eqn:Hc; [reflexivity|].
  cbn [forallb]. now rewrite Hc, IH.
Qed.

Lemma forallb_not_in (x : ascii) (s : str) :
  forallb (fun c => negb (Ascii.eqb c x)) s = true -> ~ In x s.
Proof.
  induction s as [|c s IH]; cbn [forallb In]; [tauto|].
  intros H. apply andb_true_iff in H as [Hc H].
  apply negb_true_iff, Ascii.eqb_neq in Hc. intros [E | E]; [congruence|].
  now apply IH.
Qed.

Lemma parse_row_date_clean (row : RawRow) (tx : Transaction) :
  _parse_transaction_row row = Return (Some tx) -> date_clean tx.
Proof.
  intros H. apply parse_row_inv in H as (_ & (first & _ & Hd) & _).
  unfold date_clean, trimmed. rewrite Hd. split.
  - apply strip_idem.
  - apply forallb_not_in, forallb_strip, before_first_excludes.
Qed.

Lemma parse_row_merchant_clean (row : RawRow) (tx : Transaction) :
  _parse_transaction_row row = Return (Some tx) -> merchant_clean tx.
Proof.
  intros H. apply parse_row_inv in H as (_ & _ & _ & _ & Hm & Hne & Ht).
  unfold merchant_clean, trimmed. rewrite Hm. repeat split; try assumption.
  unfold merchant_of. apply strip_idem.
Qed.

(** X1.  The date stored in a transaction has no whitespace at either end and
    contains no "|": the time that follows a "|" in the date cell is never
    stored.  This holds for every row the row normalizer accepts and for
    every transaction in the result of [parse_statement]. *)
Theorem transaction_date_clean
    (row : RawRow) (tx : Transaction) (pages : list RawPage) (r : StatementDetails) :
  (_parse_transaction_row row = Return (Some tx) -> date_clean tx)
  /\ (parse_statement pages = Return r -> Forall date_clean (transactions r)).
Proof.
  split.
  - apply parse_row_date_clean.
  - apply parse_statement_all. exact parse_row_date_clean.
Qed.

Lemma transaction_date_clean_witness :
  date_clean (mkTx (lit "08/10/2025") (lit "AMAZON PAY") (mkDec false (lit "123456") (-2)))
  /\ Forall date_clean
       [mkTx (lit "08/10/2025") (lit "AMAZON PAY") (mkDec false (lit "123456") (-2))].
Proof.
  destruct (transaction_date_clean
              (cells ["08/10/2025 | 11:58"%string; "AMAZON PAY"%string; "1,234.56"%string])
              (mkTx (lit "08/10/2025") (lit "AMAZON PAY") (mkDec false (lit "123456") (-2)))
              [mkPage (lit "statement")
                 [[cells ["Date"%string; "Transaction Details"%string; "Amount"%string];
                   cells ["08/10/2025 | 11:58"%string; "AMAZON PAY"%string;
                          "1,234.56"%string]]]]
              (mkDetails None
                 [mkTx (lit "08/10/2025") (lit "AMAZON PAY")
                       (mkDec false (lit "123456") (-2))]))
    as [Hrow Hall].
  split; [exact (Hrow eq_refl) | exact (Hall eq_refl)].
Defined.

(** X2.  The merchant of a transaction is never empty, has no whitespace at
    either end and does not start with "total" in any case, for every row the
    row normalizer accepts and for every transaction in the result of
    [parse_statement]. *)
Theorem transaction_merchant_clean
    (row : RawRow) (tx : Transaction) (pages : list RawPage) (r : StatementDetails) :
  (_parse_transaction_row row = Return (Some tx) -> merchant_clean tx)
  /\ (parse_statement pages = Return r -> Forall merchant_clean (transactions r)).
Proof.
  split.
  - apply parse_row_merchant_clean.
  - apply parse_statement_all. exact parse_row_merchant_clean.
Qed.

Lemma transaction_merchant_clean_witness :
  merchant_clean (mkTx (lit "10/10/2025") (lit "STARBUCKS") (mkDec false (lit "50000") (-2)))
  /\ Forall merchant_clean
       [mkTx (lit "10/10/2025") (lit "STARBUCKS") (mkDec false (lit "50000") (-2))].
Proof.
  destruct (transaction_merchant_clean
              (cells ["10/10/2025"%string; " STARBUCKS "%string; "EMI"%string;
                      "C500.00"%string])
              (mkTx (lit "10/10/2025") (lit "STARBUCKS") (mkDec false (lit "50000") (-2)))
              [mkPage (lit "statement")
                 [[cells ["Date"%string; "Transaction Details"%string; "Amount"%string];
                   cells ["10/10/2025"%string; " STARBUCKS "%string; "EMI"%string;
                          "C500.00"%string];
                   cells ["11/10/2025"%string; "Total Dues"%string; "900.00"%string]]]]
              (mkDetails None
                 [mkTx (lit "10/10/2025") (lit "STARBUCKS")
                       (mkDec false (lit "50000") (-2))]))
    as [Hrow Hall].
  split; [exact (Hrow eq_refl) | exact (Hall eq_refl)].
Defined.


(** ** The table classifier, cell by cell *)

Lemma has_word_iff (w : str) (header : RawRow) :
  has_word w header = true <-> word_in_some_cell w header.
Proof.
  unfold has_word, word_in_some_cell. rewrite existsb_exists. split.
  - intros ([s|] & Hin & Hc); [|discriminate]. now exists s.
  - intros (s & Hin & Hc). now exists (Some s).
Qed.

(** X3.  A header is a ledger header exactly when each of "date",
    "transaction" and "amount" occurs, in any case, inside some single cell:
    a keyword split over two cells is not found. *)
Theorem table_classifier_cellwise (header : RawRow) :
  _is_transaction_table header = true <->
  word_in_some_cell (lit "date") header
  /\ word_in_some_cell (lit "transaction") header
  /\ word_in_some_cell (lit "amount") header.
Proof.
  rewrite is_transaction_table_words, !andb_true_iff, !has_word_iff. tauto.
Qed.

Lemma has_word_app (w : str) (a b : RawRow) :
  has_word w (a ++ b) = has_word w a || has_word w b.
Proof. unfold has_word. apply existsb_app. Qed.

(** X4.  Cells added before or after a ledger header leave it a ledger
    header. *)
Theorem table_classifier_monotone (before header after : RawRow) :
  _is_transaction_table header = true ->
  _is_transaction_table (before ++ header ++ after) = true.
Proof.
  rewrite !is_transaction_table_words, !andb_true_iff, !has_word_app.
  intros [[-> ->] ->]. now rewrite !orb_true_r.
Qed.

Lemma table_classifier_monotone_witness :
  _is_transaction_table
    (cells ["S.No"%string] ++
     cells ["Date"%string; "Transaction Details"%string; "Amount"%string] ++
     cells ["Reward Points"%string]) = true.
Proof.
  apply (table_classifier_monotone
           (cells ["S.No"%string])
           (cells ["Date"%string; "Transaction Details"%string; "Amount"%string])
           (cells ["Reward Points"%string])).
  reflexivity.
Defined.

(** ** The order of the transactions *)

Lemma bind_return_r {A} (m : result A) : (x <- m ;; Return x) = m.
Proof. now destruct m. Qed.

Lemma parse_rows_app (a b : list RawRow) :
  parse_rows (a ++ b) = (x <- parse_rows a ;; y <- parse_rows b ;; Return (x ++ y)).
Proof.
  induction a as [|row a IH]; cbn [app parse_rows bind].
  - now rewrite bind_return_r.
  - destruct (_parse_transaction_row row) as [tx|e]; [|reflexivity].
    cbn [bind]. rewrite IH.
    destruct (parse_rows a) as [x|e]; [|reflexivity]. cbn [bind].
    destruct (parse_rows b) as [y|e]; [|reflexivity]. cbn [bind].
    now destruct tx.
Qed.

Lemma parse_tables_app (a b : list RawTable) :
  parse_tables (a ++ b)
  = (x <- parse_tables a ;; y <- parse_tables b ;; Return (x ++ y)).
Proof.
  induction a as [|t a IH]; cbn [app parse_tables bind].
  - now rewrite bind_return_r.
  - destruct (parse_table t) as [tx|e]; [|reflexivity].
    cbn [bind]. rewrite IH.
    destruct (parse_tables a) as [x|e]; [|reflexivity]. cbn [bind].
    destruct (parse_tables b) as [y|e]; [|reflexivity]. cbn [bind].
    now rewrite app_assoc.
Qed.

Lemma parse_pages_app (a b : list RawPage) :
  parse_pages (a ++ b)
  = (x <- parse_pages a ;; y <- parse_pages b ;; Return (x ++ y)).
Proof.
  induction a as [|p a IH]; cbn [app parse_pages bind].
  - now rewrite bind_return_r.
  - destruct (match layoutText p with [] => Return [] | _ => parse_tables (tables p) end)
      as [tx|e]; [|reflexivity].
    cbn [bind]. rewrite IH.
    destruct (parse_pages a) as [x|e]; [|reflexivity]. cbn [bind].
    destruct (parse_pages b) as [y|e]; [|reflexivity]. cbn [bind].
    now rewrite app_assoc.
Qed.

(** X5.  The transactions come in page order, then table order, then row
    order: parsing rows, tables or pages laid end to end gives the
    transactions of the first part followed by those of the second, and
    raises when either part does. *)
Theorem transactions_in_source_order
    (rows1 rows2 : list RawRow) (ts1 ts2 : list RawTable) (ps1 ps2 : list RawPage) :
  parse_rows (rows1 ++ rows2)
  = (x <- parse_rows rows1 ;; y <- parse_rows rows2 ;; Return (x ++ y))
  /\ parse_tables (ts1 ++ ts2)
     = (x <- parse_tables ts1 ;; y <- parse_tables ts2 ;; Return (x ++ y))
  /\ parse_pages (ps1 ++ ps2)
     = (x <- parse_pages ps1 ;; y <- parse_pages ps2 ;; Return (x ++ y)).
Proof.
  split; [apply parse_rows_app | split; [apply parse_tables_app | apply parse_pages_app]].
Qed.

(** ** Exactness and the safe range of the amount normalizer *)

Lemma strip_zeros_length (s : str) :
  s <> [] -> (List.length (strip_zeros s) <= List.length s)%nat.
Proof.
  induction s as [|c s IH]; [contradiction|]. intros _.
  cbn [strip_zeros]. destruct (Ascii.eqb c zero_digit); [|lia].
  destruct s as [|d s]; [cbn; lia|].
  specialize (IH ltac:(discriminate)). cbn [List.length] in *. lia.
Qed.

Lemma before_first_length (x : ascii) (s : str) :
  (List.length (before_first x s) <= List.length s)%nat.
Proof.
  induction s as [|c s IH]; [cbn; lia|]. cbn [before_first].
  destruct (Ascii.eqb c x); cbn [List.length]; lia.
Qed.

(** The size of what the constructor builds, against the size of its text. *)
Lemma of_str_size (s : str) (d : Decimal) :
  of_str s = Some d ->
  1 <= len (d_int d) <= len s /\ - len s <= d_exp d <= 0.
Proof.
  unfold of_str.
  set (i := before_first "."%char s).
  set (f := tl (skipn (List.length i) s)).
  destruct (forallb isdigit i && forallb isdigit f) ; [|discriminate].
  destruct (Str.eqb (i ++ f) []) eqn:He; [discriminate|].
  cbn [negb andb]. intros [= <-]. cbn [d_int d_exp].
  assert (Hne : i ++ f <> []).
  { intros E. rewrite E in He. discriminate. }
  pose proof (strip_zeros_length _ Hne) as Hl.
  pose proof (before_first_length "."%char s) as Hi. fold i in Hi.
  assert (Hf : (List.length f <= List.length s - List.length i)%nat).
  { unfold f. destruct (skipn (List.length i) s) as [|c r] eqn:Hs; [cbn; lia|].
    apply (f_equal (@List.length ascii)) in Hs. rewrite length_skipn in Hs.
    cbn [tl List.length] in *. lia. }
  assert (Hpos : (1 <= List.length (strip_zeros (i ++ f)))%nat).
  { generalize (i ++ f). intros l. induction l as [|c l IHl]; [cbn; lia|].
    cbn [strip_zeros]. destruct (Ascii.eqb c zero_digit); [exact IHl | cbn; lia]. }
  rewrite length_app in Hl. unfold len. lia.
Qed.

Lemma keep_numeric_length (text : str) :
  (List.length (keep_numeric text) <= List.length text)%nat.
Proof. apply filter_length_le. Qed.

Lemma _fix_exact (d : Decimal) :
  len (d_int d) <= prec -> Etiny <= d_exp d <= 0 -> _fix d = Return d.
Proof.
  intros Hl He. unfold _fix.
  destruct (is_zero d).
  - assert (E : Z.min (Z.max (d_exp d) Etiny) Emax = d_exp d)
      by (unfold Etiny, Emin, Emax, prec in *; lia).
    now rewrite E, Z.eqb_refl.
  - assert (H1 : (len (d_int d) + d_exp d - prec >? Etop) = false).
    { rewrite Z.gtb_ltb. apply Z.ltb_ge. unfold Etop, Emax, prec in *. lia. }
    rewrite H1.
    destruct (len (d_int d) + d_exp d - prec <? Etiny) eqn:Hsub.
    + assert (H2 : (d_exp d <? Etiny) = false) by (apply Z.ltb_ge; lia).
      now rewrite H2.
    + assert (H2 : (d_exp d <? len (d_int d) + d_exp d - prec) = false)
        by (apply Z.ltb_ge; lia).
      now rewrite H2.
Qed.

(** X6.  No rounding within the context precision: on a text with at most 28
    digits and dots, [_clean_amount] returns exactly the number the digits
    and dots denote, or absence when they denote none, with the sign flag set
    when the credit test holds and the number is not zero. *)
Theorem clean_amount_exact (text : str) :
  len (keep_numeric text) <= 28 ->
  _clean_amount (Some text)
  = Return (option_map (signed_amount (is_credit text)) (of_str (keep_numeric text))).
Proof.
  intros Hlen. rewrite clean_amount_eq.
  destruct (of_str (keep_numeric text)) as [a|] eqn:Hp; [|reflexivity].
  cbn [option_map]. unfold signed_amount.
  destruct (is_credit text); [|reflexivity].
  pose proof (of_str_size _ _ Hp) as (Hi & He).
  unfold neg. cbn [andb].
  destruct (is_zero a) eqn:Hz; cbn [negb].
  - rewrite _fix_exact.
    + cbn [bind]. pose proof (of_str_sign _ _ Hp) as Hs.
      destruct a as [sg i e]. cbn in Hs. subst sg. reflexivity.
    + cbn [copy_abs d_int]. unfold prec. lia.
    + cbn [copy_abs d_exp]. unfold Etiny, Emin, prec. lia.
  - rewrite _fix_exact; [reflexivity | |].
    + cbn [copy_negate d_int]. unfold prec. lia.
    + cbn [copy_negate d_exp]. unfold Etiny, Emin, prec. lia.
Qed.

Lemma clean_amount_exact_witness :
  _clean_amount (Some (lit "C1,234.50 Cr"))
  = Return (Some (mkDec true (lit "123450") (-2))).
Proof.
  exact (clean_amount_exact (lit "C1,234.50 Cr") ltac:(discriminate)).
Defined.

Lemma _fix_returns (d : Decimal) :
  len (d_int d) + d_exp d - prec < Etop -> exists v, _fix d = Return v.
Proof.
  intros Hb. unfold _fix.
  destruct (is_zero d).
  { destruct (_ =? _); eexists; reflexivity. }
  assert (H1 : (len (d_int d) + d_exp d - prec >? Etop) = false).
  { rewrite Z.gtb_ltb. apply Z.ltb_ge. lia. }
  rewrite H1.
  set (m := if len (d_int d) + d_exp d - prec <? Etiny then Etiny
            else len (d_int d) + d_exp d - prec).
  assert (Hm : m < Etop).
  { unfold m. destruct (_ <? Etiny); [unfold Etiny, Etop, Emin, Emax, prec; lia | lia]. }
  destruct (d_exp d <? m); [|eexists; reflexivity].
  destruct (len (d_int d) + d_exp d - m <? 0).
  - destruct (_round_half_even ["1"%char] (Z.to_nat 0) >? 0).
    + destruct (len (succ_digits _) >? prec).
      * assert (H2 : (m + 1 >? Etop) = false)
          by (rewrite Z.gtb_ltb; apply Z.ltb_ge; lia).
        rewrite H2. eexists; reflexivity.
      * assert (H2 : (m >? Etop) = false)
          by (rewrite Z.gtb_ltb; apply Z.ltb_ge; lia).
        rewrite H2. eexists; reflexivity.
    + assert (H2 : (m >? Etop) = false)
        by (rewrite Z.gtb_ltb; apply Z.ltb_ge; lia).
      rewrite H2. eexists; reflexivity.
  - destruct (_round_half_even (d_int d) _ >? 0).
    + destruct (len (succ_digits _) >? prec).
      * assert (H2 : (m + 1 >? Etop) = false)
          by (rewrite Z.gtb_ltb; apply Z.ltb_ge; lia).
        rewrite H2. eexists; reflexivity.
      * assert (H2 : (m >? Etop) = false)
          by (rewrite Z.gtb_ltb; apply Z.ltb_ge; lia).
        rewrite H2. eexists; reflexivity.
    + assert (H2 : (m >? Etop) = false)
        by (rewrite Z.gtb_ltb; apply Z.ltb_ge; lia).
      rewrite H2. eexists; reflexivity.
Qed.

Lemma clean_amount_short_returns (text : str) :
  len text < 1000000 -> exists r, _clean_amount (Some text) = Return r.
Proof.
  intros Hlen. rewrite clean_amount_eq.
  destruct (of_str (keep_numeric text)) as [a|] eqn:Hp; [|eexists; reflexivity].
  destruct (is_credit text); [|eexists; reflexivity].
  pose proof (of_str_size _ _ Hp) as (Hi & He).
  pose proof (keep_numeric_length text) as Hk.
  assert (Hb : len (d_int a) + d_exp a - prec < Etop)
    by (unfold len, Etop, Emax, prec in *; lia).
  unfold neg.
  destruct (_fix (if is_zero a then copy_abs a else copy_negate a)) as [v|e] eqn:Hf.
  - eexists; reflexivity.
  - exfalso.
    destruct (_fix_returns (if is_zero a then copy_abs a else copy_negate a)) as [v Hv].
    + now destruct (is_zero a).
    + congruence.
Qed.

(** X7.  The safe range of [_clean_amount]: on a text of fewer than
    1 000 000 characters it never raises, whatever the characters are. *)
Theorem clean_amount_safe_range (text : str) :
  len text < 1000000 -> exists r, _clean_amount (Some text) = Return r.
Proof. apply clean_amount_short_returns. Qed.

Lemma clean_amount_safe_range_witness :
  exists r, _clean_amount (Some (lit "+86,962.00")) = Return r.
Proof.
  apply (clean_amount_safe_range (lit "+86,962.00")). reflexivity.
Defined.

Lemma parse_row_safe (row : RawRow) :
  safe_row row -> exists r, _parse_transaction_row row = Return r.
Proof.
  intros [Hfirst Hlast]. unfold _parse_transaction_row.
  destruct (len row <? 3) eqn:Hl; [eexists; reflexivity|].
  apply Z.ltb_ge in Hl.
  destruct Hfirst as [Hshort | (first & ->)]; [lia|].
  destruct (negb _); [eexists; reflexivity|].
  assert (Ha : exists r, _clean_amount (last row None) = Return r).
  { destruct (last row None) as [s|] eqn:Hs; [|eexists; reflexivity].
    apply clean_amount_short_returns. now apply Hlast. }
  destruct Ha as [[a|] ->]; cbn [bind]; [|eexists; reflexivity].
  destruct (_ || _); eexists; reflexivity.
Qed.

(** X8.  A row never makes the row normalizer raise when its first cell is
    present (or it has fewer than 3 cells) and its last cell has fewer than
    1 000 000 characters: it is either turned into a transaction or
    rejected. *)
Theorem parse_row_never_raises (row : RawRow) :
  safe_row row -> exists r, _parse_transaction_row row = Return r.
Proof. apply parse_row_safe. Qed.

Lemma parse_row_never_raises_witness :
  exists r,
    _parse_transaction_row (cells ["08/10/2025"%string; "AMAZON PAY"%string; "x"%string])
    = Return r.
Proof.
  apply (parse_row_never_raises
           (cells ["08/10/2025"%string; "AMAZON PAY"%string; "x"%string])).
  split.
  - right. now exists (lit "08/10/2025").
  - intros s [= <-]. reflexivity.
Defined.


(** ** What the limit patterns capture *)

Lemma Matches_consumes (r : regex) (st st' : mstate) :
  Matches r st st' -> exists consumed, rest st = consumed ++ rest st'.
Proof.
  induction 1 as [st|p st c s Hr Hc|r1 r2 st st1 st2 _ IH1 _ IH2
                  |r1 r2 st st' _ IH|r1 r2 st st' _ IH|p st a s Hr Ha
                  |r st st' _ IH|r st|r st st' _ IH|st Hb|st Hr];
    cbn [rest]; try (now exists []); try assumption.
  - now exists [c].
  - destruct IH1 as [c1 E1], IH2 as [c2 E2]. exists (c1 ++ c2).
    now rewrite E1, E2, app_assoc.
  - now exists a.
Qed.

Lemma firstn_consumed {A} (g r : list A) :
  firstn (List.length (g ++ r) - List.length r) (g ++ r) = g.
Proof.
  rewrite length_app, Nat.add_sub, firstn_app, Nat.sub_diag, firstn_all.
  cbn [firstn]. apply app_nil_r.
Qed.

(** A captured group is a piece of the text ahead. *)
Lemma Matches_group_factor (r : regex) (st st' : mstate) :
  Matches r st st' ->
  group1 st' = group1 st
  \/ exists g pre post, group1 st' = Some g /\ rest st = pre ++ g ++ post.
Proof.
  induction 1 as [st|p st c s Hr Hc|r1 r2 st st1 st2 H1 IH1 _ IH2
                  |r1 r2 st st' _ IH|r1 r2 st st' _ IH|p st a s Hr Ha
                  |r st st' _ IH|r st|r st st' H1 _|st Hb|st Hr];
    cbn [group1 rest]; try (now left); try assumption.
  - destruct IH2 as [E2 | (g & pre & post & Hg & E2)].
    + rewrite E2. exact IH1.
    + right. apply Matches_consumes in H1 as [c1 E1].
      exists g, (c1 ++ pre), post. split; [exact Hg|].
      now rewrite E1, E2, app_assoc.
  - right. apply Matches_consumes in H1 as [c1 E1].
    exists c1, [], (rest st'). split.
    + now rewrite E1, firstn_consumed.
    + exact E1.
Qed.

Lemma search_from_factor (r : regex) (s : str) :
  forall b st, search_from r b s = Some st ->
  group1 st = None \/ exists g pre post, group1 st = Some g /\ s = pre ++ g ++ post.
Proof.
  induction s as [|c s IH]; intros b st; cbn [search_from].
  - destruct (run r (mkSt b [] None) Some) as [x|] eqn:Hr; [|discriminate].
    intros [= ->]. apply run_sound in Hr as (st' & Hm & [= ->]).
    exact (Matches_group_factor _ _ _ Hm).
  - destruct (run r (mkSt b (c :: s) None) Some) as [x|] eqn:Hr.
    + intros [= ->]. apply run_sound in Hr as (st' & Hm & [= ->]).
      exact (Matches_group_factor _ _ _ Hm).
    + intros H. apply IH in H as [H | (g & pre & post & Hg & ->)]; [now left|].
      right. now exists g, (c :: pre), post.
Qed.

Lemma search_group1_length (r : regex) (s g : str) :
  search_group1 r s = Some g -> len g <= len s.
Proof.
  unfold search_group1.
  destruct (search_from r true s) as [st|] eqn:Hs; [|discriminate].
  apply search_from_factor in Hs as [Hg | (g' & pre & post & Hg & ->)];
    rewrite Hg; intros [= <-]; unfold len.
  - cbn. lia.
  - rewrite !length_app. lia.
Qed.

Ltac inv_opt :=
  repeat match goal with
         | H : Matches (Opt _) _ _ |- _ => inv H
         end.
Lemma amount_group_token (st st' : mstate) :
  Matches amount_group st st' -> exists g, group1 st' = Some g /\ limit_token g.
Proof.
  intros H. unfold amount_group in H. inv H.
  eexists. split; [reflexivity|].
  match goal with
  | Hin : Matches _ st ?s1 |- _ =>
      destruct (Matches_consumes _ _ _ Hin) as [consumed Hc];
      rewrite Hc, firstn_consumed;
      cbv [cats plus fold_right chr] in Hin
  end.
  destruct st as [b0 s0 g0]. cbn [rest] in *.
  inv_matches; inv_opt; inv_matches; subst.
  - eqb_to_eq. subst.
    match goal with
    | E : consumed ++ ?r = ?c :: ?a ++ "."%char :: ?f ++ ?r |- _ =>
        assert (consumed = (c :: a) ++ ["."%char] ++ f)
          by (apply (app_inv_tail r); rewrite E; list_eq);
        exists (c :: a), ["."%char], f
    end.
    repeat split; try assumption; try discriminate; [|now right].
    cbn [forallb]. apply andb_true_iff. now split.
  - match goal with
    | E : consumed ++ ?r = ?c :: ?a ++ ?f ++ ?r |- _ =>
        assert (consumed = (c :: a) ++ [] ++ f)
          by (apply (app_inv_tail r); rewrite E; list_eq);
        exists (c :: a), [], f
    end.
    repeat split; try assumption; try discriminate; [|now left].
    cbn [forallb]. apply andb_true_iff. now split.
Qed.

Lemma limit_pattern_token (r : regex) (pre : list regex) (text g : str) :
  r = cats (pre ++ [amount_group]) ->
  search_group1 r text = Some g -> limit_token g.
Proof.
  intros -> H. unfold search_group1 in H.
  destruct (search_from _ true text) as [st|] eqn:Hs; [|discriminate].
  assert (Hm : exists st0, Matches (cats (pre ++ [amount_group])) st0 st).
  { clear H. revert Hs. generalize true. induction text as [|c text IH];
      intros b; cbn [search_from].
    - destruct (run _ (mkSt b [] None) Some) as [x|] eqn:Hr; [|discriminate].
      intros [= ->]. apply run_sound in Hr as (st' & Hm & [= ->]). eexists; eassumption.
    - destruct (run _ (mkSt b (c :: text) None) Some) as [x|] eqn:Hr.
      + intros [= ->]. apply run_sound in Hr as (st' & Hm & [= ->]). eexists; eassumption.
      + apply IH. }
  destruct Hm as [st0 Hm].
  assert (Hg : exists g', group1 st = Some g' /\ limit_token g').
  { clear H Hs. revert st0 Hm. induction pre as [|x pre IH]; intros st0 Hm.
    - cbn [app cats fold_right] in Hm. inv Hm.
      match goal with
      | H1 : Matches amount_group _ _, H2 : Matches Eps _ _ |- _ =>
          inv H2; exact (amount_group_token _ _ H1)
      end.
    - cbn [app cats fold_right] in Hm. inv Hm. eapply IH. eassumption. }
  destruct Hg as (g' & Hg & Ht). rewrite Hg in H. now injection H as <-.
Qed.

Lemma token_chars (g : str) :
  limit_token g ->
  g <> [] /\ forallb (fun c => numeric c || Ascii.eqb c ","%char) g = true.
Proof.
  intros (ds & pt & frac & -> & (Hne & Hds) & Hpt & Hfrac). split.
  - destruct ds; [contradiction | discriminate].
  - rewrite !forallb_app. apply andb_true_iff. split; [|apply andb_true_iff; split].
    + revert Hds. apply forallb_impl. intros c. unfold digit_or, numeric.
      intros H. apply orb_true_iff in H as [-> | ->]; [reflexivity | apply orb_true_r].
    + destruct Hpt as [-> | ->]; reflexivity.
    + revert Hfrac. apply forallb_impl. intros c H. unfold numeric. now rewrite H.
Qed.

Lemma numeric_or_comma_not_space (c : ascii) :
  numeric c || Ascii.eqb c ","%char = true -> negb (isspace c) = true.
Proof. char_cases c. Qed.

Lemma numeric_not_credit (t : str) :
  forallb numeric t = true -> is_credit_text t = false.
Proof.
  intros H. unfold is_credit_text. rewrite (numeric_no_cr t H).
  destruct t as [|c t]; [reflexivity|].
  cbn [forallb] in H. apply andb_true_iff in H as [H1 _].
  cbn [lit list_ascii_of_string startswith orb]. now rewrite (numeric_no_plus c H1).
Qed.

Lemma remove_commas_numeric (g : str) :
  forallb (fun c => numeric c || Ascii.eqb c ","%char) g = true ->
  forallb numeric (remove_char ","%char g) = true.
Proof.
  induction g as [|c g IH]; [reflexivity|]. cbn [forallb]. intros H.
  apply andb_true_iff in H as [Hc H]. unfold remove_char in *. cbn [filter].
  destruct (Ascii.eqb c ","%char) eqn:E; cbn [negb].
  - now apply IH.
  - cbn [forallb]. rewrite orb_false_r in Hc. now rewrite Hc, IH.
Qed.

(** A captured limit token carries no credit indicator: its amount is the
    number its digits and dot denote. *)
Lemma clean_amount_token (g : str) :
  limit_token g -> _clean_amount (Some g) = Return (of_str (keep_numeric g)).
Proof.
  intros Ht. apply token_chars in Ht as [_ Hc].
  rewrite clean_amount_eq.
  assert (E : is_credit g = false).
  { unfold is_credit.
    rewrite strip_id by (revert Hc; apply forallb_impl, numeric_or_comma_not_space).
    now apply numeric_not_credit, remove_commas_numeric. }
  rewrite E. now destruct (of_str (keep_numeric g)).
Qed.

Lemma captured_limit_token (text g : str) : captured_limit text g -> limit_token g.
Proof.
  intros [H | [_ H]].
  - apply (limit_pattern_token TOTAL_LIMIT_RE_A
             [lits "TOTAL CREDIT LIMIT"; chr newline;
              Star isspace; lits "(Including Cash)"; Star dot;
              lits "AVAILABLE CREDIT LIMIT"; Star dot; chr newline;
              Star isspace; Opt (chr "C"%char)] text g eq_refl H).
  - apply (limit_pattern_token TOTAL_LIMIT_RE_B
             [lits "TOTAL CREDIT LIMIT"; chr newline;
              Cat (Cat (Star dot) (chr newline)) (Opt (Cat (Star dot) (chr newline)));
              Star isspace] text g eq_refl H).
Qed.

Lemma total_limit_captured (text g : str) :
  captured_limit text g ->
  total_limit text
  = match of_str (keep_numeric g) with
    | Some d => a <- Dec.abs d ;; Return (Some a)
    | None => Return None
    end.
Proof.
  intros Hcap. pose proof (captured_limit_token text g Hcap) as Ht.
  pose proof (token_chars g Ht) as [Hne _].
  unfold total_limit, total_limit_with, limit_string.
  assert (E : match search_group1 TOTAL_LIMIT_RE_A text with
              | Some s => Some s
              | None => search_group1 TOTAL_LIMIT_RE_B text
              end = Some g).
  { destruct Hcap as [-> | [-> ->]]; reflexivity. }
  rewrite E. destruct g as [|c g]; [contradiction|].
  cbv beta iota. pose proof (clean_amount_token (c :: g) Ht) as Hc.
  unfold str in *. now rewrite Hc.
Qed.

(** ** When [parse_statement] cannot fail *)

Lemma total_limit_returns (text : str) :
  len text < 1000000 -> exists r, total_limit text = Return r.
Proof.
  intros Hlen.
  destruct (search_group1 TOTAL_LIMIT_RE_A text) as [g|] eqn:HA;
    [|destruct (search_group1 TOTAL_LIMIT_RE_B text) as [g|] eqn:HB].
  3: { unfold total_limit, total_limit_with, limit_string. rewrite HA, HB.
       eexists; reflexivity. }
  all: assert (Hcap : captured_limit text g) by (unfold captured_limit; tauto).
  all: assert (Hg : len g <= len text)
         by (first [exact (search_group1_length _ _ _ HA)
                   | exact (search_group1_length _ _ _ HB)]).
  all: rewrite (total_limit_captured text g Hcap).
  all: destruct (of_str (keep_numeric g)) as [d|] eqn:Hp; [|eexists; reflexivity].
  all: pose proof (of_str_size _ _ Hp) as (Hi & He).
  all: pose proof (keep_numeric_length g) as Hk.
  all: pose proof (of_str_sign _ _ Hp) as Hs.
  all: unfold Dec.abs, pos; rewrite Hs.
  all: destruct (_fix_returns (if is_zero d then copy_abs d else d)) as [v Hv];
    [ destruct (is_zero d); cbn [copy_abs d_int d_exp];
      unfold len, Etop, Emax, prec in *; lia
    | rewrite Hv; eexists; reflexivity ].
Qed.

Lemma parse_rows_safe (rows : list RawRow) :
  Forall safe_row rows -> exists r, parse_rows rows = Return r.
Proof.
  induction 1 as [|row rows Hrow _ IH]; cbn [parse_rows].
  - eexists; reflexivity.
  - destruct (parse_row_safe row Hrow) as [tx ->].
    destruct IH as [txs ->]. eexists; reflexivity.
Qed.

Lemma parse_tables_safe (ts : list RawTable) :
  Forall (fun t => Forall safe_row (tl t)) ts -> exists r, parse_tables ts = Return r.
Proof.
  induction 1 as [|t ts Ht _ IH]; cbn [parse_tables].
  - eexists; reflexivity.
  - assert (Hp : exists a, parse_table t = Return a).
    { destruct t as [|header rows]; cbn [parse_table]; [eexists; reflexivity|].
      destruct (_is_transaction_table header); [|eexists; reflexivity].
      now apply parse_rows_safe. }
    destruct Hp as [a ->]. destruct IH as [b ->]. eexists; reflexivity.
Qed.

Lemma parse_pages_safe (pages : list RawPage) :
  safe_pages pages -> exists r, parse_pages pages = Return r.
Proof.
  induction 1 as [|p pages Hp _ IH]; cbn [parse_pages].
  - eexists; reflexivity.
  - assert (Ha : exists a, match layoutText p with
                           | [] => Return []
                           | _ => parse_tables (tables p)
                           end = Return a).
    { destruct (layoutText p); [eexists; reflexivity|]. now apply parse_tables_safe. }
    destruct Ha as [a ->]. destruct IH as [b ->]. eexists; reflexivity.
Qed.

(** X10.  [parse_statement] returns a result, and no [ParsingError], whenever
    every row below a table header has its first cell present (or fewer than
    3 cells) and a last cell of fewer than 1 000 000 characters, and the text
    of the first page has fewer than 1 000 000 characters. *)
Theorem parse_statement_never_fails (pages : list RawPage) :
  safe_pages pages ->
  len (page_one_text pages) < 1000000 ->
  exists r, parse_statement pages = Return r.
Proof.
  intros Hsafe Hlen. unfold parse_statement, parse_statement_body.
  destruct (parse_pages_safe pages Hsafe) as [txs ->].
  destruct (total_limit_returns _ Hlen) as [l ->].
  eexists; reflexivity.
Qed.

Lemma parse_statement_never_fails_witness :
  exists r,
    parse_statement
      [mkPage scenario4_text
         [[cells ["Date"%string; "Transaction Details"%string; "Amount"%string];
           cells ["08/10/2025"%string; "AMAZON PAY"%string; "1,234.56"%string];
           [Some (lit "09/10/2025"); None; Some (lit "+86,962.00")]]]]
    = Return r.
Proof.
  apply parse_statement_never_fails.
  - apply Forall_cons; [|apply Forall_nil]. cbn [tables].
    apply Forall_cons; [|apply Forall_nil]. cbn [tl].
    apply Forall_cons; [|apply Forall_cons; [|apply Forall_nil]].
    + split; [right; eexists; reflexivity | intros s [= <-]; reflexivity].
    + split; [right; eexists; reflexivity | intros s [= <-]; reflexivity].
  - reflexivity.
Defined.

(** ** The other metadata rules *)

Lemma Matches_group_consumed (r : regex) (st st' : mstate) :
  Matches (Group r) st st' ->
  exists st1 consumed,
    Matches r st st1 /\ rest st = consumed ++ rest st1
    /\ st' = mkSt (at_start st1) (rest st1) (Some consumed).
Proof.
  intros H. inv H.
  match goal with
  | Hin : Matches r st ?s1 |- _ =>
      destruct (Matches_consumes _ _ _ Hin) as [consumed Hc];
      exists s1, consumed; repeat split; [exact Hin | exact Hc |];
      now rewrite Hc, firstn_consumed
  end.
Qed.

Lemma lazy_star_sound {A} (p : ascii -> bool) (s : str) (k : str -> option A) (x : A) :
  lazy_star p s k = Some x -> exists s', k s' = Some x.
Proof.
  induction s as [|c s IH]; cbn [lazy_star].
  - destruct (k []) eqn:Hk; [|discriminate]. intros [= <-]. now exists [].
  - destruct (k (c :: s)) eqn:Hk.
    + intros [= <-]. now exists (c :: s).
    + destruct (p c); [exact IH | discriminate].
Qed.

Lemma card_number_search_at (s : str) :
  forall b st, card_number_search b s = Some st ->
               exists b' s', card_number_at b' s' = Some st.
Proof.
  induction s as [|c s IH]; intros b st; cbn [card_number_search].
  - destruct (card_number_at b []) eqn:H; [|discriminate].
    intros [= <-]. now exists b, [].
  - destruct (card_number_at b (c :: s)) eqn:H.
    + intros [= <-]. now exists b, (c :: s).
    + apply IH.
Qed.

(** X11.  The last four digits of the card, when the rule finds them, are
    exactly four characters, all of them digits. *)
Theorem card_last_4_digits_shape (text digits : str) :
  card_last_4_digits_of text = Some digits ->
  List.length digits = 4%nat /\ forallb isdigit digits = true.
Proof.
  unfold card_last_4_digits_of.
  destruct (card_number_search true text) as [st|] eqn:Hs; [|discriminate].
  apply card_number_search_at in Hs as (b & s & Hat).
  unfold card_number_at in Hat.
  apply run_sound in Hat as (st1 & _ & Hk).
  apply lazy_star_sound in Hk as (s' & Hk).
  apply run_sound in Hk as (st2 & Hm & [= ->]).
  inversion Hm as [| |r1 r2 sa sb sc _ Hg| | | | | | | |]; subst. clear Hm.
  apply Matches_group_consumed in Hg as (sd & consumed & Hin & Hc & ->).
  cbn [group1]. intros E. injection E as E. subst digits.
  cbv [cats fold_right] in Hin. destruct sb as [b0 s0 g0]. cbn [rest] in *.
  inv_matches; subst; cbn [rest] in *; subst.
  match goal with
  | E : consumed ++ ?r = ?c1 :: ?c2 :: ?c3 :: ?c4 :: ?r |- _ =>
      assert (consumed = [c1; c2; c3; c4])
        by (apply (app_inv_tail r); now rewrite E)
  end.
  subst consumed. split; [reflexivity|].
  cbn [forallb].
  repeat match goal with
         | E : isdigit _ = true |- _ => rewrite E; clear E
         end.
  reflexivity.
Qed.

Lemma card_last_4_digits_shape_witness :
  List.length (lit "1234") = 4%nat /\ forallb isdigit (lit "1234") = true.
Proof.
  apply (card_last_4_digits_shape
           (lit "JOHN DOE   Credit Card No. 4321 XXXXXX1234 X")).
  reflexivity.
Defined.

Lemma search_lines_from_matches (r : regex) (s : str) :
  forall f l st, search_lines_from r f l s = Some st ->
                 exists st0, Matches r st0 st.
Proof.
  induction s as [|c s IH]; intros f l st; cbn [search_lines_from].
  - destruct l; [|discriminate].
    destruct (run r (mkSt f [] None) Some) as [x|] eqn:Hr; [|discriminate].
    intros [= ->]. apply run_sound in Hr as (st' & Hm & [= ->]).
    eexists; eassumption.
  - destruct (if l then run r (mkSt f (c :: s) None) Some else None) as [x|] eqn:Hr.
    + intros [= ->]. destruct l; [|discriminate].
      apply run_sound in Hr as (st' & Hm & [= ->]). eexists; eassumption.
    + apply IH.
Qed.

(** X12.  The name on the card, when the rule finds it, has no whitespace at
    either end and consists of the capital letters A to Z and whitespace
    only. *)
Theorem name_on_card_shape (text name : str) :
  name_on_card_of text = Some name ->
  trimmed name /\ forallb caps_or_space name = true.
Proof.
  unfold name_on_card_of, search_lines_group1.
  destruct (search_lines_from NAME_ON_CARD_RE true true text) as [st|] eqn:Hs;
    [|discriminate].
  apply search_lines_from_matches in Hs as (st0 & Hm).
  intros [= <-]. split; [apply strip_idem|]. apply forallb_strip.
  unfold NAME_ON_CARD_RE in Hm. cbn [cats fold_right] in Hm.
  inversion Hm as [| |r1 r2 sa sb sc _ Hrest| | | | | | | |]; subst. clear Hm.
  inversion Hrest as [| |r1 r2 sa sc sd Hg Htail| | | | | | | |]; subst. clear Hrest.
  apply Matches_group_consumed in Hg as (se & consumed & Hin & Hc & ->).
  cbv [plus lits chr map lit list_ascii_of_string fold_right cats] in Htail.
  cbv [cats repeat app fold_right] in Hin. destruct sb as [b0 s0 g0].
  cbn [rest] in *. inv_matches; subst; cbn [rest group1] in *; subst.
  match goal with
  | E : consumed ++ ?r = ?c1 :: ?c2 :: ?c3 :: ?c4 :: ?c5 :: ?c6 :: ?c7 :: ?c8
          :: ?c9 :: ?c10 :: ?a ++ ?r |- _ =>
      assert (consumed = [c1; c2; c3; c4; c5; c6; c7; c8; c9; c10] ++ a)
        by (apply (app_inv_tail r); rewrite E; list_eq)
  end.
  subst consumed. cbn [app forallb].
  repeat match goal with
         | E : caps_or_space _ = true |- _ => rewrite E; clear E
         end.
  assumption.
Qed.

Lemma name_on_card_shape_witness :
  trimmed (lit "JOHN Q PUBLIC") /\ forallb caps_or_space (lit "JOHN Q PUBLIC") = true.
Proof.
  apply (name_on_card_shape
           (lit "  JOHN Q PUBLIC      Credit Card No. 4321 XXXXXX1234")).
  reflexivity.
Defined.

Lemma split_ws_words (s : str) : Forall spaceless_word (split_ws s).
Proof.
  induction s as [|c s IH]; cbn [split_ws]; [constructor|].
  destruct (isspace c) eqn:Hc; [exact IH|].
  assert (Hw : spaceless_word [c]).
  { split; [discriminate|]. cbn [forallb]. now rewrite Hc. }
  assert (Hone : Forall spaceless_word [[c]]) by (constructor; [exact Hw | constructor]).
  destruct s as [|d s]; [exact Hone|].
  destruct (isspace d); [constructor; [exact Hw | exact IH]|].
  destruct (split_ws (d :: s)) as [|w ws]; [exact Hone|].
  inversion IH as [|? ? [Hne Hsp] Hws]; subst.
  constructor; [|exact Hws].
  split; [discriminate|]. cbn [forallb]. now rewrite Hc, Hsp.
Qed.

(** X13.  A cleaned card name is made of non-empty words without whitespace,
    separated by single spaces (there may be no word at all); so is the card
    name that [parse_statement] stores. *)
Theorem card_name_single_spaced (full_name text name : str) :
  single_spaced (_clean_card_name full_name)
  /\ (card_name_of text = Some name -> single_spaced name).
Proof.
  assert (H : forall n, single_spaced (_clean_card_name n)).
  { intros n. eexists. split; [reflexivity | apply split_ws_words]. }
  split; [apply H|].
  unfold card_name_of.
  destruct (search_lines_group1 CARD_NAME_RE text); [|discriminate].
  intros [= <-]. apply H.
Qed.

Lemma card_name_single_spaced_witness :
  single_spaced (_clean_card_name (lit "  HDFC Bank   Regalia First Credit Card "))
  /\ single_spaced (lit "Regalia First").
Proof.
  destruct (card_name_single_spaced
              (lit "  HDFC Bank   Regalia First Credit Card ")
              (lit "  HDFC Bank Regalia First Credit Card Statement")
              (lit "Regalia First")) as [H1 H2].
  split; [exact H1 | exact (H2 eq_refl)].
Defined.

(** ** Cleaning a card name made of plain words *)

Lemma istartswith_lower (t r : str) : istartswith (lower t) (t ++ r) = true.
Proof.
  induction t as [|c t IH]; [reflexivity|].
  cbn [lower map app istartswith]. now rewrite Ascii.eqb_refl.
Qed.

Lemma istartswith_split (w : str) :
  forall t r, istartswith w (t ++ r) = true ->
  ((List.length w <= List.length t)%nat /\ istartswith w t = true)
  \/ exists w2, w = lower t ++ w2 /\ w2 <> [] /\ istartswith w2 r = true.
Proof.
  induction w as [|x w IH]; intros t r H.
  - left. split; [cbn; lia | reflexivity].
  - destruct t as [|y t].
    + right. exists (x :: w). repeat split; [discriminate | exact H].
    + cbn [app istartswith] in H. apply andb_true_iff in H as [Hx H].
      apply Ascii.eqb_eq in Hx. subst x.
      destruct (IH t r H) as [[Hl Hs] | (w2 & -> & Hne & Hs)].
      * left. split; [cbn; lia|]. cbn [istartswith]. now rewrite Ascii.eqb_refl.
      * right. now exists w2.
Qed.

Lemma istartswith_same_length (w : str) :
  forall t, List.length w = List.length t -> istartswith w t = true -> w = lower t.
Proof.
  induction w as [|x w IH]; intros [|y t]; cbn [List.length]; try discriminate.
  - reflexivity.
  - intros [= Hl]. cbn [istartswith]. intros H.
    apply andb_true_iff in H as [Hx H]. apply Ascii.eqb_eq in Hx. subst x.
    cbn [lower map]. f_equal. now apply IH.
Qed.

Lemma lower_length (t : str) : List.length (lower t) = List.length t.
Proof. apply length_map. Qed.

Lemma letter_is_word_char (y : ascii) :
  between 97 122 (lower_char y) = true -> is_word_char y = true.
Proof. char_cases y. Qed.

Lemma word_char_not_space (c : ascii) :
  is_word_char c = true -> negb (isspace c) = true.
Proof. char_cases c. Qed.

Lemma words_to_remove_letters :
  Forall (fun w => forallb (between 97 122) w = true) words_to_remove.
Proof. repeat constructor. Qed.

Lemma boundary_after_token (t r : str) :
  head_nonword r -> boundary_after (List.length t) (t ++ r) = true.
Proof.
  intros Hr. unfold boundary_after.
  rewrite nth_error_app2, Nat.sub_diag by lia.
  destruct r as [|c r]; [reflexivity|]. cbn [nth_error]. cbn in Hr. now rewrite Hr.
Qed.

Lemma boundary_after_inside (n : nat) (t r : str) :
  forallb is_word_char t = true -> (n < List.length t)%nat ->
  boundary_after n (t ++ r) = false.
Proof.
  intros Ht Hn. unfold boundary_after. rewrite nth_error_app1 by exact Hn.
  destruct (nth_error t n) as [c|] eqn:Hc.
  - apply nth_error_In in Hc. rewrite forallb_forall in Ht. now rewrite (Ht c Hc).
  - apply nth_error_None in Hc. lia.
Qed.

(** On a plain word followed by a boundary, a generic word matches exactly
    when it is the word itself in lower case. *)
Lemma word_test_plain (w t r : str) :
  In w words_to_remove -> plain_word t -> head_nonword r ->
  (istartswith w (t ++ r) && boundary_after (List.length w) (t ++ r) = true
   <-> w = lower t).
Proof.
  intros Hin [Hne Ht] Hr. split.
  - intros H. apply andb_true_iff in H as [Hs Hb].
    destruct (istartswith_split w t r Hs) as [[Hl Hst] | (w2 & -> & Hw2 & Hs2)].
    + destruct (Nat.eq_dec (List.length w) (List.length t)) as [E | E].
      * now apply istartswith_same_length.
      * rewrite boundary_after_inside in Hb by (assumption || lia). discriminate.
    + exfalso. destruct w2 as [|x w2]; [contradiction|].
      destruct r as [|y r]; [discriminate|].
      cbn [istartswith] in Hs2. apply andb_true_iff in Hs2 as [Hx _].
      apply Ascii.eqb_eq in Hx. cbn in Hr.
      pose proof words_to_remove_letters as Hl. rewrite Forall_forall in Hl.
      specialize (Hl _ Hin). rewrite forallb_app in Hl.
      apply andb_true_iff in Hl as [_ Hl]. cbn [forallb] in Hl.
      apply andb_true_iff in Hl as [Hl _]. rewrite <- Hx in Hl.
      apply letter_is_word_char in Hl. congruence.
  - intros ->. rewrite istartswith_lower, lower_length.
    now rewrite boundary_after_token.
Qed.

Lemma word_at_plain (t r : str) :
  plain_word t -> head_nonword r ->
  word_at false (t ++ r) = if generic t then Some (List.length t) else None.
Proof.
  intros Ht Hr. unfold word_at.
  destruct (find _ words_to_remove) as [w|] eqn:Hf.
  - apply find_some in Hf as [Hin Hw].
    apply (word_test_plain w t r Hin Ht Hr) in Hw. subst w.
    rewrite lower_length.
    assert (Hg : generic t = true).
    { unfold generic. apply existsb_exists. exists (lower t).
      split; [exact Hin | apply str_eqb_refl]. }
    now rewrite Hg.
  - destruct (generic t) eqn:Hg; [|reflexivity]. exfalso.
    unfold generic in Hg. apply existsb_exists in Hg as (w & Hin & Hw).
    apply str_eqb_eq in Hw. subst w.
    pose proof (find_none _ _ Hf _ Hin) as Hn. cbv beta in Hn.
    assert (Ht' : istartswith (lower t) (t ++ r)
                  && boundary_after (List.length (lower t)) (t ++ r) = true)
      by now apply (word_test_plain (lower t) t r Hin Ht Hr).
    congruence.
Qed.

Lemma sub_words_keep (t r : str) :
  forallb is_word_char t = true ->
  sub_words 0 true (t ++ r) = t ++ sub_words 0 true r.
Proof.
  induction t as [|c t IH]; [reflexivity|].
  cbn [forallb]. intros H. apply andb_true_iff in H as [Hc Ht].
  cbn [app sub_words word_at]. now rewrite Hc, (IH Ht).
Qed.

Lemma sub_words_skip (t r : str) :
  forallb is_word_char t = true ->
  sub_words (List.length t) true (t ++ r) = sub_words 0 true r.
Proof.
  induction t as [|c t IH]; [reflexivity|].
  cbn [forallb]. intros H. apply andb_true_iff in H as [Hc Ht].
  cbn [app List.length sub_words]. now rewrite Hc, (IH Ht).
Qed.

Lemma sub_words_token (t r : str) :
  plain_word t -> head_nonword r ->
  sub_words 0 false (t ++ r)
  = (if generic t then [] else t) ++ sub_words 0 true r.
Proof.
  intros Ht Hr. pose proof (word_at_plain t r Ht Hr) as Hw.
  destruct Ht as [Hne Ht]. destruct t as [|c t]; [contradiction|].
  cbn [forallb] in Ht. apply andb_true_iff in Ht as [Hc Ht].
  cbn [app sub_words]. cbn [app] in Hw. rewrite Hw.
  destruct (generic (c :: t)).
  - cbn [List.length]. rewrite Nat.sub_succ, Nat.sub_0_r, Hc.
    now rewrite sub_words_skip.
  - rewrite Hc, sub_words_keep by exact Ht. reflexivity.
Qed.

Lemma sub_words_join (tokens : list str) :
  Forall plain_word tokens ->
  sub_words 0 false (join (lit " ") tokens)
  = join (lit " ") (map (fun t => if generic t then [] else t) tokens).
Proof.
  induction tokens as [|t [|t2 rest] IH]; intros H.
  - reflexivity.
  - inversion H as [|? ? Ht _]; subst. cbn [join map].
    rewrite <- (app_nil_r t) at 1.
    rewrite sub_words_token by (exact Ht || exact I).
    cbn [sub_words]. now rewrite app_nil_r.
  - inversion H as [|? ? Ht Hrest]; subst.
    change (join (lit " ") (t :: t2 :: rest))
      with (t ++ " "%char :: join (lit " ") (t2 :: rest)).
    rewrite sub_words_token by (exact Ht || reflexivity).
    change (sub_words 0 true (" "%char :: join (lit " ") (t2 :: rest)))
      with (" "%char :: sub_words 0 false (join (lit " ") (t2 :: rest))).
    rewrite (IH Hrest). reflexivity.
Qed.

Lemma split_ws_word (w : str) :
  forallb (fun c => negb (isspace c)) w = true ->
  split_ws w = match w with [] => [] | _ => [w] end.
Proof.
  induction w as [|c w IH]; [reflexivity|].
  cbn [forallb]. intros H. apply andb_true_iff in H as [Hc Hw].
  apply negb_true_iff in Hc. cbn [split_ws]. rewrite Hc.
  destruct w as [|d w]; [reflexivity|].
  specialize (IH Hw). cbn [forallb] in Hw. apply andb_true_iff in Hw as [Hd _].
  apply negb_true_iff in Hd. now rewrite Hd, IH.
Qed.

Lemma split_ws_word_sep (w r : str) :
  forallb (fun c => negb (isspace c)) w = true ->
  split_ws (w ++ " "%char :: r)
  = match w with [] => split_ws r | _ => w :: split_ws r end.
Proof.
  induction w as [|c w IH]; [reflexivity|].
  cbn [forallb]. intros H. apply andb_true_iff in H as [Hc Hw].
  apply negb_true_iff in Hc. cbn [app split_ws]. rewrite Hc.
  destruct w as [|d w]; [reflexivity|].
  specialize (IH Hw). cbn [forallb] in Hw. apply andb_true_iff in Hw as [Hd _].
  apply negb_true_iff in Hd. cbn [app] in *. now rewrite Hd, IH.
Qed.

Lemma split_ws_join (l : list str) :
  Forall (fun w => forallb (fun c => negb (isspace c)) w = true) l ->
  split_ws (join (lit " ") l) = filter (fun w => negb (Str.eqb w [])) l.
Proof.
  induction l as [|w [|w2 rest] IH]; intros H.
  - reflexivity.
  - inversion H as [|? ? Hw _]; subst. cbn [join filter].
    rewrite (split_ws_word w Hw). now destruct w.
  - inversion H as [|? ? Hw Hrest]; subst.
    change (join (lit " ") (w :: w2 :: rest))
      with (w ++ " "%char :: join (lit " ") (w2 :: rest)).
    rewrite (split_ws_word_sep w _ Hw), (IH Hrest).
    cbn [filter]. now destruct w.
Qed.

Lemma kept_tokens (tokens : list str) :
  Forall plain_word tokens ->
  filter (fun w => negb (Str.eqb w []))
         (map (fun t => if generic t then [] else t) tokens)
  = filter (fun t => negb (generic t)) tokens.
Proof.
  induction 1 as [|t tokens [Hne _] _ IH]; [reflexivity|].
  cbn [map filter]. rewrite IH.
  destruct (generic t); [reflexivity|].
  destruct t; [contradiction | reflexivity].
Qed.

(** X14.  On a name made of plain words (letters, digits, underscore)
    separated by single spaces, [_clean_card_name] returns the words that are
    not "HDFC", "Bank", "Credit", "Card" or "Statement" in any case, in their
    order, separated by single spaces. *)
Theorem clean_card_name_plain_words (tokens : list str) :
  Forall plain_word tokens ->
  _clean_card_name (join (lit " ") tokens)
  = join (lit " ") (filter (fun t => negb (generic t)) tokens).
Proof.
  intros H. unfold _clean_card_name.
  rewrite (sub_words_join tokens H), split_ws_join, (kept_tokens tokens H);
    [reflexivity|].
  apply Forall_map. revert H. apply Forall_impl. intros t [_ Ht].
  destruct (generic t); [reflexivity|].
  revert Ht. apply forallb_impl, word_char_not_space.
Qed.

Lemma clean_card_name_plain_words_witness :
  _clean_card_name (lit "HDFC Bank Business Regalia First credit CARD")
  = lit "Business Regalia First".
Proof.
  apply (clean_card_name_plain_words
           [lit "HDFC"; lit "Bank"; lit "Business"; lit "Regalia"; lit "First";
            lit "credit"; lit "CARD"]).
  repeat (apply Forall_cons; [split; [discriminate | reflexivity]|]).
  apply Forall_nil.
Defined.

(** ** The service endpoint *)

Lemma startswith_iff (p s : str) :
  startswith p s = true <-> exists r, s = p ++ r.
Proof.
  revert s. induction p as [|x p IH]; intros s.
  - split; [now exists s | reflexivity].
  - destruct s as [|y s]; cbn [startswith].
    + split; [discriminate | intros [r H]; discriminate H].
    + rewrite andb_true_iff, Ascii.eqb_eq, IH. split.
      * intros [-> [r ->]]. now exists r.
      * intros [r [= -> ->]]. split; [reflexivity | now exists r].
Qed.

Lemma endswith_iff (p s : str) :
  endswith p s = true <-> exists stem, s = stem ++ p.
Proof.
  unfold endswith. rewrite startswith_iff. split.
  - intros [r H]. exists (rev r).
    rewrite <- (rev_involutive s), H, rev_app_distr. now rewrite rev_involutive.
  - intros [stem ->]. exists (rev stem). apply rev_app_distr.
Qed.

(** X15.  The endpoint accepts a file exactly when its name is a stem
    followed by an extension that reads ".pdf" once put in lower case; an
    absent or empty name is refused. *)
Theorem pdf_filename_iff (filename : option str) :
  pdf_filename filename = true <->
  exists stem ext,
    filename = Some (stem ++ ext) /\ lower ext = lit ".pdf".
Proof.
  destruct filename as [[|c f]|]; cbn [pdf_filename].
  - split; [discriminate|]. intros (stem & ext & [= H] & He).
    symmetry in H. apply app_eq_nil in H as [_ ->]. discriminate He.
  - rewrite endswith_iff. split.
    + intros [stem H]. unfold lower in H.
      apply map_eq_app in H as (a & b & Hf & Ha & Hb).
      exists a, b. split; [now rewrite Hf | exact Hb].
    + intros (stem & ext & [= H] & He). exists (lower stem).
      rewrite H. unfold lower in *. now rewrite map_app, He.
  - split; [discriminate|]. now intros (stem & ext & [= ] & _).
Qed.

(** X16.  The status of every answer of the endpoint.  The details are
    returned exactly when the name is accepted, the upload is read, the
    document opens and the body of [parse_statement] returns them; 422 is
    answered whenever the opened document is a false object or the body
    raises, whatever the exception.  When opening the document raises, the
    answer depends on the lookup of [pdfplumber.errors.PasswordError]: if
    that name does not resolve, every such failure, a refused password
    included, is answered 500 like a failed read, and 400 only for a refused
    name; if it resolves, a refused password is answered 400 and any other
    failure 422.  No other status occurs. *)
Theorem endpoint_status (errors_resolves : bool) (filename : option str)
    (read_ok : bool) (o : open_outcome) :
  let answer := parse_pdf_statement errors_resolves filename read_ok o in
  (forall r, answer = Details r <->
             pdf_filename filename = true /\ read_ok = true
             /\ exists pages, o = Opened pages /\ parse_statement pages = Return r)
  /\ (answer = HTTPError 400 <->
      pdf_filename filename = false
      \/ (read_ok = true /\ o = WrongPassword /\ errors_resolves = true))
  /\ (answer = HTTPError 422 <->
      pdf_filename filename = true /\ read_ok = true
      /\ ((o = OpenFailed /\ errors_resolves = true)
          \/ o = OpenedNone
          \/ exists pages e, o = Opened pages /\ parse_statement pages = Raise e))
  /\ (answer = HTTPError 500 <->
      pdf_filename filename = true
      /\ (read_ok = false
          \/ (errors_resolves = false /\ (o = WrongPassword \/ o = OpenFailed))))
  /\ (forall code, answer = HTTPError code ->
                   code = 400 \/ code = 422 \/ code = 500).
Proof.
  unfold parse_pdf_statement, parse_statement_call.
  destruct errors_resolves, (pdf_filename filename), read_ok; cbn [negb];
    try (destruct o as [pages| | |];
         [destruct (parse_statement pages) as [r0|e] eqn:Hp| | |]).
  all: cbv zeta; repeat split; intros;
    repeat match goal with
           | H : _ /\ _ |- _ => destruct H
           | H : _ \/ _ |- _ => destruct H
           | H : exists _, _ |- _ => destruct H
           | H : Opened _ = Opened _ |- _ => injection H as <-
           | H : Details _ = Details _ |- _ => injection H as <-
           | H : HTTPError _ = HTTPError _ |- _ => injection H as <-
           end;
    try discriminate; try congruence; eauto 8.
Qed.

(** ** When the amount normalizer gives no amount *)

Lemma numeric_cases (c : ascii) :
  numeric c = true ->
  (isdigit c = true /\ Ascii.eqb c "."%char = false)
  \/ (isdigit c = false /\ c = "."%char).
Proof.
  unfold numeric. destruct (isdigit c) eqn:Hd.
  - intros _. left. split; [reflexivity|]. apply negb_true_iff. now apply digit_not_dot.
  - cbn [orb]. intros H. apply Ascii.eqb_eq in H. now right.
Qed.

(** The constructor on a text of digits and dots: it fails exactly when the
    text has no digit or more than one dot. *)
Lemma of_str_none_iff (s : str) :
  forallb numeric s = true ->
  (of_str s = None <-> digits_of s = [] \/ (2 <= dots s)%nat).
Proof.
  intros Hs. unfold of_str.
  assert (Hshape :
    (before_first "."%char s = s /\ forallb isdigit s = true /\ dots s = 0%nat)
    \/ exists i f, s = i ++ "."%char :: f /\ before_first "."%char s = i
                   /\ forallb isdigit i = true /\ forallb numeric f = true
                   /\ dots s = S (dots f) /\ digits_of s = i ++ digits_of f).
  { clear - Hs. induction s as [|c s IH]; [left; now repeat split|].
    cbn [forallb] in Hs. apply andb_true_iff in Hs as [Hc Hs].
    destruct (numeric_cases c Hc) as [[Hd Hn] | [Hd ->]].
    - destruct (IH Hs) as [(Hb & Hall & Hz) | (i & f & -> & Hb & Hi & Hf & Hdots & Hdig)].
      + left. cbn [before_first forallb]. rewrite Hn, Hb, Hd, Hall.
        repeat split. unfold dots in *. cbn [filter]. now rewrite Hn.
      + right. exists (c :: i), f. cbn [before_first app forallb].
        rewrite Hn, Hb, Hd, Hi. repeat split; try assumption.
        * unfold dots in *. cbn [filter]. now rewrite Hn.
        * unfold digits_of in *. cbn [filter]. now rewrite Hd, Hdig.
    - right. exists [], s. cbn [before_first app forallb].
      repeat split; try assumption. }
  destruct Hshape as [(Hb & Hall & Hz) | (i & f & -> & Hb & Hi & Hf & Hdots & Hdig)].
  - rewrite Hb, skipn_all. cbn [tl forallb]. rewrite app_nil_r, Hall, Hz.
    assert (Hdg : digits_of s = s) by (apply forallb_filter_id, Hall).
    rewrite Hdg. destruct s as [|c s]; cbn [Str.eqb negb andb].
    + split; [now left | reflexivity].
    + split; [discriminate | intros [H | H]; [discriminate H | lia]].
  - rewrite Hb, skipn_app, skipn_all, Nat.sub_diag. cbn [skipn app tl].
    rewrite Hi, Hdots, Hdig. cbn [andb].
    destruct (forallb isdigit f) eqn:Hfd.
    + assert (Hdf : digits_of f = f) by (apply forallb_filter_id, Hfd).
      assert (Hzero : dots f = 0%nat).
      { unfold dots. clear - Hfd. induction f as [|c f IH]; [reflexivity|].
        cbn [forallb] in Hfd. apply andb_true_iff in Hfd as [Hc Hfd].
        cbn [filter]. apply digit_not_dot, negb_true_iff in Hc. rewrite Hc.
        now apply IH. }
      rewrite Hdf, Hzero. cbn [andb].
      destruct (i ++ f) as [|c r]; cbn [Str.eqb negb].
      * split; [now left | reflexivity].
      * split; [discriminate | intros [H | H]; [discriminate H | lia]].
    + cbn [andb]. split; [|reflexivity]. intros _. right.
      assert (Hpos : (1 <= dots f)%nat).
      { unfold dots. clear - Hf Hfd. induction f as [|c f IH]; [discriminate|].
        cbn [forallb] in Hf, Hfd. apply andb_true_iff in Hf as [Hc Hf].
        cbn [filter]. destruct (numeric_cases c Hc) as [[Hd Hn] | [Hd ->]].
        - rewrite Hn. apply IH; [exact Hf|]. now rewrite Hd in Hfd.
        - rewrite Ascii.eqb_refl. cbn [List.length]. lia. }
      lia.
Qed.

Lemma dots_keep_numeric (text : str) : dots (keep_numeric text) = dots text.
Proof.
  unfold dots, keep_numeric. induction text as [|c text IH]; [reflexivity|].
  cbn [filter]. destruct (Ascii.eqb c "."%char) eqn:Hc.
  - assert (Hn : numeric c = true) by (unfold numeric; now rewrite Hc, orb_true_r).
    rewrite Hn. cbn [filter]. rewrite Hc. cbn [List.length]. now rewrite IH.
  - destruct (numeric c); [cbn [filter]; rewrite Hc|]; exact IH.
Qed.

Lemma digits_keep_numeric (text : str) :
  digits_of (keep_numeric text) = digits_of text.
Proof.
  unfold digits_of, keep_numeric. induction text as [|c text IH]; [reflexivity|].
  cbn [filter]. destruct (isdigit c) eqn:Hc.
  - assert (Hn : numeric c = true) by (unfold numeric; now rewrite Hc).
    rewrite Hn. cbn [filter]. now rewrite Hc, IH.
  - destruct (numeric c); [cbn [filter]; rewrite Hc|]; exact IH.
Qed.

Lemma keep_numeric_all (text : str) : forallb numeric (keep_numeric text) = true.
Proof.
  unfold keep_numeric. apply forallb_forall. intros c Hc.
  now apply filter_In in Hc.
Qed.

(** X17.  [_clean_amount] returns None exactly when the text has no digit or
    has more than one dot; so a dot anywhere else in the text, as in
    "Rs. 1,234.50", makes a well-formed number unreadable. *)
Theorem clean_amount_none_iff (text : str) :
  _clean_amount (Some text) = Return None <->
  digits_of text = [] \/ (2 <= dots text)%nat.
Proof.
  rewrite <- dots_keep_numeric, <- digits_keep_numeric.
  rewrite <- (of_str_none_iff _ (keep_numeric_all text)).
  rewrite clean_amount_eq.
  destruct (of_str (keep_numeric text)) as [a|]; [|tauto].
  split; [|discriminate].
  destruct (is_credit text); [|discriminate].
  destruct (neg a); discriminate.
Qed.

(** ** The text captured as the credit limit *)





(** ** Cells and tables that leave no trace *)

Lemma merchant_parts_app (a b : list cell) :
  merchant_parts (a ++ b) = merchant_parts a ++ merchant_parts b.
Proof.
  induction a as [|[[|c p]|] a IH]; cbn [app merchant_parts]; try exact IH.
  - reflexivity.
  - destruct (is_junk (strip (c :: p))); [exact IH | now rewrite IH].
Qed.

Lemma merchant_parts_invisible (j : cell) :
  invisible_cell j -> merchant_parts [j] = [].
Proof.
  destruct j as [[|c p]|]; cbn [invisible_cell merchant_parts]; try reflexivity.
  intros H. apply is_junk_iff in H; [now rewrite H | apply rstrip_strip].
Qed.

Lemma last_snoc {A} (l : list A) (x d : A) : last (l ++ [x]) d = x.
Proof. apply last_last. Qed.

Lemma middle_shape (first : cell) (mid : list cell) (final : cell) :
  middle (first :: mid ++ [final]) = mid.
Proof. unfold middle. cbn [tl]. apply removelast_last. Qed.

(** X18.  Junk leaves no trace: in a row with a present first cell and at
    least one middle cell, a further middle cell that is absent, empty or
    junk after trimming changes nothing in what the row normalizer returns or
    raises. *)
Theorem invisible_cell_ignored
    (first : str) (mid1 mid2 : list cell) (j final : cell) :
  mid1 ++ mid2 <> [] ->
  invisible_cell j ->
  _parse_transaction_row (Some first :: (mid1 ++ j :: mid2) ++ [final])
  = _parse_transaction_row (Some first :: (mid1 ++ mid2) ++ [final]).
Proof.
  intros Hmid Hj. unfold _parse_transaction_row, merchant_of.
  rewrite !middle_shape.
  change (last (Some first :: ?l ++ [final]) None)
    with (last ((Some first :: l) ++ [final]) None).
  rewrite !last_snoc.
  assert (Hm : merchant_parts (mid1 ++ j :: mid2) = merchant_parts (mid1 ++ mid2)).
  { change (j :: mid2) with ([j] ++ mid2).
    rewrite !merchant_parts_app, (merchant_parts_invisible j Hj). reflexivity. }
  rewrite Hm.
  assert (H1 : (len (A:=cell) (Some first :: (mid1 ++ j :: mid2) ++ [final]) <? 3)
               = false).
  { apply Z.ltb_ge. unfold len. cbn [List.length].
    rewrite !length_app. cbn [List.length]. lia. }
  assert (H2 : (len (A:=cell) (Some first :: (mid1 ++ mid2) ++ [final]) <? 3)
               = false).
  { apply Z.ltb_ge. unfold len. cbn [List.length].
    rewrite !length_app. cbn [List.length].
    destruct (mid1 ++ mid2) eqn:E; [contradiction|].
    rewrite <- length_app, E. cbn [List.length]. lia. }
  now rewrite H1, H2.
Qed.

Lemma invisible_cell_ignored_witness :
  _parse_transaction_row
    (Some (lit "10/10/2025") :: ([Some (lit "STARBUCKS")] ++ Some (lit "450 pts") :: [])
       ++ [Some (lit "C500.00")])
  = _parse_transaction_row
      (Some (lit "10/10/2025") :: ([Some (lit "STARBUCKS")] ++ [])
         ++ [Some (lit "C500.00")]).
Proof.
  apply (invisible_cell_ignored (lit "10/10/2025") [Some (lit "STARBUCKS")] []
           (Some (lit "450 pts")) (Some (lit "C500.00"))).
  - discriminate.
  - right. right. right. left.
    exists (lit "450"), (lit " "), (lit "pts").
    repeat split; discriminate.
Defined.

Lemma parse_table_not_a_ledger (t : RawTable) :
  not_a_ledger t -> parse_table t = Return [].
Proof.
  destruct t as [|header rows]; [reflexivity|].
  cbn [not_a_ledger parse_table]. now intros ->.
Qed.

(** X19.  A table that is not a ledger leaves no trace: whatever its rows
    hold, even rows that would make the row normalizer raise, the tables of a
    page give the same transactions, or the same exception, with or without
    it. *)
Theorem non_ledger_table_ignored (ts1 ts2 : list RawTable) (t : RawTable) :
  not_a_ledger t ->
  parse_tables (ts1 ++ t :: ts2) = parse_tables (ts1 ++ ts2).
Proof.
  intros Ht. rewrite !parse_tables_app. cbn [parse_tables].
  rewrite (parse_table_not_a_ledger t Ht). cbn [bind].
  destruct (parse_tables ts1) as [a|e]; [|reflexivity]. cbn [bind].
  destruct (parse_tables ts2) as [b|e]; reflexivity.
Qed.

Lemma non_ledger_table_ignored_witness :
  parse_tables
    ([] ++ [cells ["S.No"%string; "Description"%string];
            [None; Some (lit "08/10/2025"); Some (lit "12")]] :: [])
  = parse_tables ([] ++ []).
Proof.
  apply (non_ledger_table_ignored [] []
           [cells ["S.No"%string; "Description"%string];
            [None; Some (lit "08/10/2025"); Some (lit "12")]]).
  reflexivity.
Defined.

(** X20.  A first page without text costs the statement its credit limit and
    hides the tables of that page: the limit is absent whatever the later
    pages hold, and the transactions are those of the later pages. *)
Theorem blank_first_page (p : RawPage) (later : list RawPage) :
  layoutText p = [] ->
  parse_statement (p :: later)
  = match parse_pages later with
    | Return txs => Return (mkDetails None txs)
    | Raise _ => Raise ParsingError
    end.
Proof.
  intros Hp. unfold parse_statement, parse_statement_body.
  cbn [parse_pages page_one_text]. rewrite Hp. cbn [bind].
  destruct (parse_pages later) as [txs|e]; reflexivity.
Qed.

Lemma blank_first_page_witness :
  parse_statement
    [mkPage [] [[cells ["Date"%string; "Transaction Details"%string; "Amount"%string];
                 [None; Some (lit "x"); Some (lit "1")]]];
     mkPage scenario4_text []]
  = Return (mkDetails None []).
Proof.
  apply (blank_first_page
           (mkPage [] [[cells ["Date"%string; "Transaction Details"%string;
                               "Amount"%string];
                        [None; Some (lit "x"); Some (lit "1")]]])
           [mkPage scenario4_text []]).
  reflexivity.
Defined.

Lemma endpoint_status_witness :
  parse_pdf_statement false (Some (lit "statement.PDF")) true WrongPassword
  = HTTPError 500.
Proof.
  apply (proj1 (proj2 (proj2 (proj2
           (endpoint_status false (Some (lit "statement.PDF")) true
                            WrongPassword))))).
  split; [reflexivity|]. right. split; [reflexivity|]. now left.
Defined.

(** ** The precision of credit amounts *)

Lemma succ_rev_length (r : str) : (List.length (succ_rev r) <= S (List.length r))%nat.
Proof.
  induction r as [|c r IH]; cbn [succ_rev List.length]; [lia|].
  destruct (Ascii.eqb c "9"%char); cbn [List.length]; lia.
Qed.

Lemma succ_digits_length (s : str) :
  s <> [] -> (List.length (succ_digits s) <= S (List.length s))%nat.
Proof.
  intros Hne. unfold succ_digits. rewrite length_rev.
  pose proof (succ_rev_length (rev (strip_zeros s))) as H.
  rewrite length_rev in H. pose proof (strip_zeros_length s Hne). lia.
Qed.

Lemma removelast_length {A} (l : list A) :
  List.length (removelast l) = (List.length l - 1)%nat.
Proof.
  induction l as [|x [|y l] IH]; [reflexivity | reflexivity |].
  change (removelast (x :: y :: l)) with (x :: removelast (y :: l)).
  cbn [List.length] in *. rewrite IH. lia.
Qed.

(** What [_fix] returns has at most [prec] digits in its coefficient. *)
Lemma _fix_precision (d v : Decimal) :
  _fix d = Return v -> len (d_int v) <= prec.
Proof.
  unfold _fix. destruct (is_zero d) eqn:Hz.
  { apply str_eqb_eq in Hz.
    destruct (_ =? _); intros [= <-]; [rewrite Hz|]; cbn; unfold prec; lia. }
  destruct (len (d_int d) + d_exp d - prec >? Etop); [discriminate|].
  set (m := if len (d_int d) + d_exp d - prec <? Etiny then Etiny
            else len (d_int d) + d_exp d - prec).
  assert (Hm : len (d_int d) + d_exp d - prec <= m).
  { unfold m. destruct (_ <? Etiny) eqn:E; [apply Z.ltb_lt in E|]; lia. }
  destruct (d_exp d <? m) eqn:Hround.
  2:{ intros [= <-]. apply Z.ltb_ge in Hround. lia. }
  assert (Hcut : forall i n,
             (n <= 28)%nat ->
             (List.length (match firstn n i with [] => [zero_digit] | c => c end)
              <= 28)%nat
             /\ match firstn n i with [] => [zero_digit] | c => c end <> []).
  { intros i n Hn. destruct (firstn n i) as [|c r] eqn:E.
    - split; [cbn; lia | discriminate].
    - split; [|discriminate]. rewrite <- E, length_firstn. lia. }
  assert (Hfin : forall coeff e' (b : bool),
             (List.length coeff <= 28)%nat -> coeff <> [] ->
             (let '(c, e) :=
                if b then
                  let c' := succ_digits coeff in
                  if len c' >? prec then (removelast c', e' + 1) else (c', e')
                else (coeff, e') in
              if e >? Etop then Raise DecimalOverflow
              else Return (mkDec (d_sign d) c e)) = Return v ->
             len (d_int v) <= prec).
  { intros coeff e' b Hl Hne. destruct b; cbv zeta.
    - pose proof (succ_digits_length coeff Hne) as Hs.
      destruct (len (succ_digits coeff) >? prec) eqn:Hgt; cbv beta iota.
      + destruct (e' + 1 >? Etop); [discriminate|]. intros [= <-].
        cbn [d_int]. unfold len, prec. rewrite removelast_length. lia.
      + destruct (e' >? Etop); [discriminate|]. intros [= <-].
        cbn [d_int]. rewrite Z.gtb_ltb in Hgt. apply Z.ltb_ge in Hgt. exact Hgt.
    - destruct (e' >? Etop); [discriminate|]. intros [= <-].
      cbn [d_int]. unfold len, prec. lia. }
  destruct (len (d_int d) + d_exp d - m <? 0) eqn:Hneg.
  - destruct (Hcut ["1"%char] (Z.to_nat 0)) as [Hl Hne]; [cbn; lia|].
    apply Hfin; assumption.
  - apply Z.ltb_ge in Hneg.
    destruct (Hcut (d_int d) (Z.to_nat (len (d_int d) + d_exp d - m))) as [Hl Hne];
      [unfold prec in *; lia|].
    apply Hfin; assumption.
Qed.

(** X21.  Credit and debit amounts are not kept alike: a credit amount comes
    out of the negation with at most 28 digits in its coefficient, rounded
    when the text has more, while for a text without credit indicator the
    result is the number of the text with every one of its digits. *)
Theorem credit_amount_precision (text : str) (v : Decimal) :
  _clean_amount (Some text) = Return (Some v) ->
  (is_credit text = true -> len (d_int v) <= 28)
  /\ (is_credit text = false -> of_str (keep_numeric text) = Some v).
Proof.
  rewrite clean_amount_eq.
  destruct (of_str (keep_numeric text)) as [a|]; [|discriminate].
  destruct (is_credit text).
  - destruct (neg a) as [x|e] eqn:Hn; [|discriminate].
    cbn [bind]. intros [= ->]. split; [|discriminate].
    intros _. unfold neg in Hn. exact (_fix_precision _ _ Hn).
  - intros [= ->]. split; [discriminate | reflexivity].
Qed.

Lemma credit_amount_precision_witness :
  (is_credit (lit "+12345678901234567890123456789012345") = true ->
   len (d_int (mkDec true (lit "1234567890123456789012345679") 7)) <= 28)
  /\ (is_credit (lit "+12345678901234567890123456789012345") = false ->
      of_str (keep_numeric (lit "+12345678901234567890123456789012345"))
      = Some (mkDec true (lit "1234567890123456789012345679") 7)).
Proof.
  apply (credit_amount_precision (lit "+12345678901234567890123456789012345")).
  reflexivity.
Defined.
